(** * wenv: passing the environment from WSL to Windows programs

    A shallow embedding of [wenv.go] (the launcher, which runs on the Linux
    side) and of the helper program [wenvhelper] (which runs on the Windows
    side), with the properties of the path translation, of the policy table,
    of the collection of the environment, of the exec retry loop and of the
    helper's exit code.

    Go strings are byte strings: they are embedded as [string], whose
    characters are the 256 values of [ascii].  A Go [map[string]T] is a
    [gmap string T].  A Go function returning [(string, error)] returns a
    pair [string * option error], the error being [None] for Go's [nil].

    [wenv.go] comes in two revisions, which differ in the path translation and
    in the call of [syscall.Exec]:
    - [MntRoot]: the drive pattern is the fixed [^(/mnt)?/([a-z])(/|$)] and
      [syscall.Exec] is retried on [ENOMEM];
    - [WslConf]: the mount root is read from [/etc/wsl.conf] on first use and
      [syscall.Exec] is called once.
    What the two revisions share is defined once, in sections whose variables
    are the parts that differ. *)

From Stdlib Require Import ZArith Ascii String List Lia Bool.
From stdpp Require Import base option list strings gmap fin_maps.

Local Open Scope char_scope.
Local Open Scope string_scope.

(** ** Results of Go code that can panic *)

(** An index or a slice expression out of range is a run-time panic: the
    program prints a stack trace and exits with status 2. *)
Inductive outcome (A : Type) : Type :=
| Ok (a : A)
| Panic.
Arguments Ok {A} a.
Arguments Panic {A}.

(** Go's [error] values built by this program. *)
Inductive error : Type :=
| errors_New (msg : string).

(** ** The functions of Go's package [strings] that the program calls *)

Module GoStrings.

(** The double quote, byte 34. *)
Definition dquote : ascii := "034".

(** [strings.HasPrefix(s, prefix)]. *)
Fixpoint HasPrefix (s prefix : string) {struct prefix} : bool :=
  match prefix with
  | "" => true
  | String p prefix' =>
      match s with
      | "" => false
      | String c s' => Ascii.eqb c p && HasPrefix s' prefix'
      end
  end.

(** [s[len(prefix):]] when [s] starts with [prefix]. *)
Fixpoint CutPrefix (s prefix : string) {struct prefix} : option string :=
  match prefix with
  | "" => Some s
  | String p prefix' =>
      match s with
      | "" => None
      | String c s' => if Ascii.eqb c p then CutPrefix s' prefix' else None
      end
  end.

(** [strings.Contains(s, substr)]. *)
Fixpoint Contains (s substr : string) {struct s} : bool :=
  HasPrefix s substr ||
  match s with
  | "" => false
  | String _ s' => Contains s' substr
  end.

(** [strings.Replace(s, old, new, -1)] for one-byte [old] and [new]: every
    call of the program replaces one separator byte by another. *)
Fixpoint ReplaceAll (s : string) (old new : ascii) : string :=
  match s with
  | "" => ""
  | String c s' =>
      String (if Ascii.eqb c old then new else c) (ReplaceAll s' old new)
  end.

(** [strings.Split(s, sep)] for a one-byte separator, which is what every
    call of the program passes.  The result is never empty: a string
    without separator is returned as the only field. *)
Fixpoint Split (s : string) (sep : ascii) : list string :=
  match s with
  | "" => [""]
  | String c s' =>
      if Ascii.eqb c sep then "" :: Split s' sep
      else match Split s' sep with
           | f :: fs => String c f :: fs
           | [] => [String c ""]
           end
  end.

(** The parts of [s] before and after the first [sep], if there is one. *)
Fixpoint Cut (s : string) (sep : ascii) : option (string * string) :=
  match s with
  | "" => None
  | String c s' =>
      if Ascii.eqb c sep then Some ("", s')
      else match Cut s' sep with
           | Some (before, after) => Some (String c before, after)
           | None => None
           end
  end.

(** [strings.SplitN(s, sep, n)] for a one-byte separator and [n >= 0]: at
    most [n] fields, the last one being the unsplit remainder. *)
Fixpoint SplitN (s : string) (sep : ascii) (n : nat) : list string :=
  match n with
  | 0 => []
  | S n' =>
      match n' with
      | 0 => [s]
      | S _ =>
          match Cut s sep with
          | None => [s]
          | Some (before, after) => before :: SplitN after sep n'
          end
      end
  end.

(** [strings.Join(elems, sep)]. *)
Fixpoint Join (elems : list string) (sep : string) : string :=
  match elems with
  | [] => ""
  | e :: es =>
      match es with
      | [] => e
      | _ :: _ => e +:+ sep +:+ Join es sep
      end
  end.

Definition inRange (lo hi c : ascii) : bool :=
  (nat_of_ascii lo <=? nat_of_ascii c)%nat && (nat_of_ascii c <=? nat_of_ascii hi)%nat.

Definition upperByte (c : ascii) : ascii :=
  if inRange "a" "z" c then ascii_of_nat (nat_of_ascii c - 32) else c.

Definition lowerByte (c : ascii) : ascii :=
  if inRange "A" "Z" c then ascii_of_nat (nat_of_ascii c + 32) else c.

Fixpoint mapBytes (f : ascii -> ascii) (s : string) : string :=
  match s with
  | "" => ""
  | String c s' => String (f c) (mapBytes f s')
  end.

(** [strings.ToUpper] and [strings.ToLower] on ASCII strings; the program
    applies them to the one ASCII letter a pattern has captured. *)
Definition ToUpper (s : string) : string := mapBytes upperByte s.
Definition ToLower (s : string) : string := mapBytes lowerByte s.

(** White space as [unicode.IsSpace] defines it, in UTF-8: the six ASCII
    bytes, and U+0085, U+00A0, U+1680, U+2000..U+200A, U+2028, U+2029,
    U+202F, U+205F and U+3000. *)
Definition space1 (c : ascii) : bool :=
  match c with
  | "009" | "010" | "011" | "012" | "013" | " " => true
  | _ => false
  end%char.

Definition space2 (c1 c2 : ascii) : bool :=
  Ascii.eqb c1 "194" && (Ascii.eqb c2 "133" || Ascii.eqb c2 "160").

Definition space3 (c1 c2 c3 : ascii) : bool :=
  (Ascii.eqb c1 "225" && Ascii.eqb c2 "154" && Ascii.eqb c3 "128")
  || (Ascii.eqb c1 "226" && Ascii.eqb c2 "128"
      && (inRange "128" "138" c3 || Ascii.eqb c3 "168" || Ascii.eqb c3 "169"
          || Ascii.eqb c3 "175"))
  || (Ascii.eqb c1 "226" && Ascii.eqb c2 "129" && Ascii.eqb c3 "159")
  || (Ascii.eqb c1 "227" && Ascii.eqb c2 "128" && Ascii.eqb c3 "128").

(** Leading white space removed; with [flip] the string is read backwards,
    so that the bytes of a rune come in reverse order. *)
Fixpoint trimLeading (flip : bool) (s : string) : string :=
  match s with
  | "" => ""
  | String c1 s1 =>
      if space1 c1 then trimLeading flip s1
      else
        match s1 with
        | "" => s
        | String c2 s2 =>
            if (if flip then space2 c2 c1 else space2 c1 c2)
            then trimLeading flip s2
            else
              match s2 with
              | "" => s
              | String c3 s3 =>
                  if (if flip then space3 c3 c2 c1 else space3 c1 c2 c3)
                  then trimLeading flip s3
                  else s
              end
        end
  end.

(** [strings.TrimSpace(s)]. *)
Definition TrimSpace (s : string) : string :=
  String.rev (trimLeading true (String.rev (trimLeading false s))).

End GoStrings.
Import GoStrings.

(** ** The patterns of package [regexp] that the program compiles

    Every pattern starts with [^], so it can only match at the start of the
    text, and has no repetition.  [FindStringSubmatch] is embedded by the
    captured letter ([None] for Go's [nil]), [ReplaceAllString] by the
    replacement of that one match. *)

Module Patterns.

(** The class [[a-z]]. *)
Definition lower (c : ascii) : bool := inRange "a" "z" c.

(** The class [[A-Za-z]]. *)
Definition letter (c : ascii) : bool := inRange "A" "Z" c || inRange "a" "z" c.

(** The group [(/|$)] at the start of [s]. *)
Definition sepOrEnd (s : string) : bool :=
  match s with
  | "" => true
  | String c _ => Ascii.eqb c "/"
  end.

(** [^root([a-z])(/|$)], for a [root] that stands for itself in a pattern
    (no metacharacter): the letter captured by the first group. *)
Definition findDrive (root path : string) : option ascii :=
  match CutPrefix path root with
  | Some (String c rest) => if lower c && sepOrEnd rest then Some c else None
  | _ => None
  end.

(** [^root[a-z]] replaced by [repl], which has no [$]. *)
Definition replaceDrive (root path repl : string) : string :=
  match CutPrefix path root with
  | Some (String c rest) => if lower c then repl +:+ rest else path
  | _ => path
  end.

(** [^([A-Za-z]):]: the letter captured by the group. *)
Definition findLetter (path : string) : option ascii :=
  match path with
  | String c (String d _) =>
      if letter c && Ascii.eqb d ":" then Some c else None
  | _ => None
  end.

(** [^([A-Za-z]):] replaced by [repl]. *)
Definition replaceLetter (path repl : string) : string :=
  match path with
  | String c (String d rest) =>
      if letter c && Ascii.eqb d ":" then repl +:+ rest else path
  | _ => path
  end.

(** A root stands for itself in a pattern and in a replacement when its
    bytes are ASCII and none is a byte that [regexp] gives a meaning to. *)
Definition metachar (c : ascii) : bool :=
  match c with
  | "\" | "." | "+" | "*" | "?" | "(" | ")" | "|" | "[" | "]" | "{" | "}"
  | "^" | "$" => true
  | _ => false
  end%char.

Fixpoint plain (root : string) : bool :=
  match root with
  | "" => true
  | String c root' =>
      (nat_of_ascii c <? 128)%nat && negb (metachar c) && plain root'
  end.

End Patterns.
Import Patterns.

(** ** Code that reads and writes a global and can panic *)

(** A computation over a state [St] (the globals it uses) that returns a
    value and the new state, or panics. *)
Definition M (St A : Type) : Type := St -> outcome (A * St).

Definition ret {St A : Type} (a : A) : M St A := fun st => Ok (a, st).

Definition bind {St A B : Type} (m : M St A) (k : A -> M St B) : M St B :=
  fun st =>
    match m st with
    | Ok (a, st') => k a st'
    | Panic => Panic
    end.

Definition panic {St A : Type} : M St A := fun _ => Panic.

Notation "x <- m ;; k" := (bind m (fun x => k))
  (at level 100, m at next level, right associativity).

(** ** The path translation of revision [MntRoot] (wenv.go, lines 256-283) *)

Module MntRoot.

(** [^(/mnt)?/([a-z])(/|$)]: the letter captured by the second group.  The
    optional group is tried first. *)
Definition findMnt (path : string) : option ascii :=
  match findDrive "/mnt/" path with
  | Some c => Some c
  | None => findDrive "/" path
  end.

(** [^(/mnt)?/[a-z]] replaced by [repl]. *)
Definition replaceMnt (path repl : string) : string :=
  match CutPrefix path "/mnt/" with
  | Some (String c rest) =>
      if lower c then repl +:+ rest else replaceDrive "/" path repl
  | _ => replaceDrive "/" path repl
  end.

(** convert WSL path to Windows path *)
Definition winpath (path : string) : string * option error :=
  let path :=
    match findMnt path with
    | Some c =>
        let repl := ToUpper (String c "") +:+ ":" in
        replaceMnt path repl
    | None => path
    end in
  let path := ReplaceAll path "/" "\" in
  if HasPrefix path "\" then ("", Some (errors_New "could not convert path"))
  else (path, None).

(** convert Windows path to WSL path *)
Definition wslpath (path : string) : string :=
  let path := ReplaceAll path "\" "/" in
  match findLetter path with
  | Some c =>
      let repl := "/mnt/" +:+ ToLower (String c "") in
      replaceLetter path repl
  | None => path
  end.

End MntRoot.

(** ** The path translation of revision [WslConf] (wenv.go, lines 529-588) *)

Module WslConf.

(** The mount root when [/etc/wsl.conf] does not name one. *)
Definition defaultRoot : string := "/mnt/".

(** [s[1 : len(s)-1]] for a string of at least two bytes, given [s[1:]]. *)
Fixpoint dropLast (s : string) : string :=
  match s with
  | "" => ""
  | String c s' =>
      match s' with
      | "" => ""
      | String _ _ => String c (dropLast s')
      end
  end.

(** The loop of [getWSLRoot] over the lines of the file: the value assigned
    to the global [wslRoot], which is ["/mnt/"] unless a line sets it. *)
Fixpoint scanLines (lines : list string) : outcome string :=
  match lines with
  | [] => Ok defaultRoot
  | s :: lines' =>
      if negb (Contains s "root") then scanLines lines'
      else
        match Split s "=" with
        | [_; v] =>
            let s := TrimSpace v in
            match s with
            | "" => Panic (* s[0]: index out of range *)
            | String c s' =>
                if Ascii.eqb c dquote then
                  match s' with
                  | "" => Panic (* s[1:0]: slice bounds out of range *)
                  | String _ _ => Ok (dropLast s')
                  end
                else Ok s
            end
        | _ => Ok defaultRoot
        end
  end.

(** [getWSLRoot]: [conf] is what [ioutil.ReadFile("/etc/wsl.conf")]
    returns, [None] when it returns an error. *)
Definition getWSLRoot (conf : option string) : outcome string :=
  match conf with
  | None => Ok defaultRoot
  | Some b => scanLines (Split b "010")
  end.

(** The body of [winpath] once the global [wslRoot] is set.  The patterns
    [^wslRoot([a-z])(/|$)] and [^wslRoot[a-z]] are built from the root as it
    is, so the embedding holds for a [plain] root. *)
Definition winpathAt (wslRoot path : string) : string * option error :=
  let path :=
    match findDrive wslRoot path with
    | Some c =>
        let repl := ToUpper (String c "") +:+ ":" in
        replaceDrive wslRoot path repl
    | None => path
    end in
  let path := ReplaceAll path "/" "\" in
  if HasPrefix path "\" then ("", Some (errors_New "could not convert path"))
  else (path, None).

(** The body of [wslpath] once the global [wslRoot] is set. *)
Definition wslpathAt (wslRoot path : string) : string :=
  let path := ReplaceAll path "\" "/" in
  match findLetter path with
  | Some c =>
      let repl := wslRoot +:+ ToLower (String c "") in
      replaceLetter path repl
  | None => path
  end.

Section Lazy.

(** The contents of [/etc/wsl.conf], [None] when it cannot be read. *)
Variable conf : option string.

(** [if wslRoot == "" { getWSLRoot() }]: the state is the global
    [wslRoot], which starts empty. *)
Definition ensureRoot : M string unit :=
  fun wslRoot =>
    if String.eqb wslRoot "" then
      match getWSLRoot conf with
      | Ok r => Ok (tt, r)
      | Panic => Panic
      end
    else Ok (tt, wslRoot).

(** convert WSL path to Windows path *)
Definition winpath (path : string) : M string (string * option error) :=
  _ <- ensureRoot ;; fun wslRoot => Ok (winpathAt wslRoot path, wslRoot).

(** convert Windows path to WSL path *)
Definition wslpath (path : string) : M string string :=
  _ <- ensureRoot ;; fun wslRoot => Ok (wslpathAt wslRoot path, wslRoot).

End Lazy.

End WslConf.

(** ** The policy table (wenv.go, lines 65-91 and 221-254) *)

(** [type varopt int] with its four constants. *)
Inductive varopt : Type :=
| varIgnore
| varPass
| varConvert
| varPath.

Global Instance varopt_eq_dec : EqDecision varopt.
Proof. solve_decision. Defined.

(** The switch on [e[0]] of a non-empty entry: the policy and the name. *)
Definition modifier (e : string) : varopt * string :=
  match e with
  | String "!" e' => (varIgnore, e')
  | String "@" e' => (varConvert, e')
  | String "#" e' => (varPath, e')
  | String "$" e' => (varPass, e')
  | _ => (varPass, e)
  end.

(** The loop of [getvaropts] over the entries of [WENV].  The table is
    updated in place: at an error it keeps the entries set so far. *)
Fixpoint getvaroptsLoop (entries : list string) (varopts : gmap string varopt)
  : gmap string varopt * option error :=
  match entries with
  | [] => (varopts, None)
  | e :: entries' =>
      let e := TrimSpace e in
      if String.eqb e "" then getvaroptsLoop entries' varopts
      else
        let '(opt, e) := modifier e in
        if String.eqb e "" then (varopts, Some (errors_New "empty var name in WENV"))
        else getvaroptsLoop entries' (<[e := opt]> varopts)
  end.

(** [getvaropts]: [wenv] is [os.Getenv("WENV")], empty when the variable is
    not set; the global table [varopts] is passed and returned. *)
Definition getvaropts (wenv : string) (varopts : gmap string varopt)
  : gmap string varopt * option error :=
  if String.eqb wenv "" then (varopts, None)
  else getvaroptsLoop (Split wenv ",") varopts.

(** ** The collection of the variables (wenv.go, lines 105-158) *)

(** The loop over the leading [name=value] arguments: the variables set and
    the arguments left. *)
Fixpoint explicitVars (args : list string) (vars : gmap string string)
  : gmap string string * list string :=
  match args with
  | [] => (vars, [])
  | a :: args' =>
      match SplitN a "=" 2 with
      | [name; value] => explicitVars args' (<[name := value]> vars)
      | _ => (vars, args)
      end
  end.

(** What the first part of [wenv] leaves: an exit code, or the variables to
    transmit and the command line of the target. *)
Inductive collected : Type :=
| Exit (code : Z)
| Collected (vars : gmap string string) (args : list string).

Section Collector.

(** The globals that [winpath] reads and writes, and [winpath] itself. *)
Context {St : Type}.
Variable winpath : string -> M St (string * option error).

(** [v[1]] for the result of [strings.SplitN(e, "=", 2)]. *)
Definition index1 (v : list string) : M St string :=
  match v !! 1%nat with
  | Some x => ret x
  | None => panic
  end.

(** The loop of the [varPath] case over the segments; [p] is the slice of
    the converted segments. *)
Fixpoint convertSegments (segments : list string) (p : list string)
  : M St (list string) :=
  match segments with
  | [] => ret p
  | e :: segments' =>
      r <- winpath e ;;
      match r.2 with
      | Some _ => convertSegments segments' p
      | None => convertSegments segments' (p ++ [r.1])
      end
  end.

(** The body of the loop over [os.Environ()] for the entry [e]. *)
Definition collectEntry (varopts : gmap string varopt) (e : string)
    (vars : gmap string string) : M St (gmap string string) :=
  let v := SplitN e "=" 2 in
  match v with
  | [] => panic
  | name :: _ =>
      match varopts !! name with
      | Some varIgnore => ret vars
      | Some varPass | None =>
          value <- index1 v ;;
          ret (<[name := value]> vars)
      | Some varConvert =>
          value <- index1 v ;;
          r <- winpath value ;;
          match r.2 with
          | Some _ => ret vars
          | None => ret (<[name := r.1]> vars)
          end
      | Some varPath =>
          value <- index1 v ;;
          p <- convertSegments (Split value ":") [] ;;
          ret (<[name := Join p ";"]> vars)
      end
  end.

(** The loop over [os.Environ()]. *)
Fixpoint collectEnviron (varopts : gmap string varopt) (environ : list string)
    (vars : gmap string string) : M St (gmap string string) :=
  match environ with
  | [] => ret vars
  | e :: environ' =>
      vars' <- collectEntry varopts e vars ;;
      collectEnviron varopts environ' vars'
  end.

(** [wenv] up to the end of the collection.  [args] is [os.Args[1:]],
    [environ] is [os.Environ()], [wenv] is [os.Getenv("WENV")] and [varopts]
    the table of the defaults.  [usage] exits with code 2. *)
Definition collect (args environ : list string) (wenv : string)
    (varopts : gmap string varopt) : M St collected :=
  match args with
  | [] => ret (Exit 2)
  | _ :: _ =>
      let '(vars, args) := explicitVars args ∅ in
      match args with
      | [] => ret (Exit 2)
      | _ :: _ =>
          if decide (size vars = 0%nat) then
            let '(varopts, err) := getvaropts wenv varopts in
            match err with
            | Some _ => ret (Exit 1)
            | None =>
                vars <- collectEnviron varopts environ vars ;;
                ret (Collected vars args)
            end
          else ret (Collected vars args)
      end
  end.

End Collector.

(** ** The call of [syscall.Exec] (wenv.go, lines 204-218 and 485-491) *)

(** [syscall.ENOMEM] on Linux. *)
Definition ENOMEM : Z := 12.

(** The error of [syscall.Exec]: a [syscall.Errno], or an error of another
    type, for which the type assertion [err.(syscall.Errno)] fails. *)
Inductive execError : Type :=
| Errno (errno : Z)
| NotErrno.

(** [syscall.Exec] returns only when it fails: when it succeeds the process
    runs the new image. *)
Inductive execResult : Type :=
| Replaced
| Failed (err : execError).

(** How the launcher ends: its image replaced, or [wenv] returning a code,
    which [main] passes to [os.Exit]; [calls] counts the calls of
    [syscall.Exec]. *)
Inductive launched : Type :=
| ImageReplaced (calls : nat)
| Returned (code : Z) (calls : nat).

(** The loop [for i := 0; ; i++] of revision [MntRoot]; [Exec i] is the
    result of the call made with the counter at [i].  The loop has no bound
    of its own, so the embedding takes [fuel], the number of iterations it
    may run; [None] when the fuel runs out. *)
Fixpoint execRetry (Exec : nat -> execResult) (fuel i : nat) : option launched :=
  match fuel with
  | 0 => None
  | S fuel' =>
      match Exec i with
      | Replaced => Some (ImageReplaced (S i))
      | Failed err =>
          match err with
          | Errno errno =>
              if (errno =? ENOMEM)%Z && (i <? 10)%nat
              then execRetry Exec fuel' (S i)
              else Some (Returned 1 (S i))
          | NotErrno => Some (Returned 1 (S i))
          end
      end
  end.

(** The single call of revision [WslConf]. *)
Definition execOnce (Exec : nat -> execResult) : launched :=
  match Exec 0%nat with
  | Replaced => ImageReplaced 1
  | Failed _ => Returned 1 1
  end.

(** ** The default tables of the two revisions *)

Module MntRootTable.
Definition varopts : gmap string varopt :=
  list_to_map
    [("home", varIgnore); ("path", varIgnore); ("ifs", varIgnore);
     ("IFS", varIgnore); ("SHELL", varIgnore); ("prompt", varIgnore);
     ("EDITOR", varIgnore); ("PAGER", varIgnore); ("BROWSER", varIgnore);
     ("PWD", varConvert); ("HOME", varConvert); ("GOBIN", varConvert);
     ("GOPATH", varConvert);
     ("PATH", varPath)].
End MntRootTable.

Module WslConfTable.
Definition varopts : gmap string varopt :=
  list_to_map
    [("home", varIgnore); ("path", varIgnore); ("ifs", varIgnore);
     ("IFS", varIgnore); ("SHELL", varIgnore); ("prompt", varIgnore);
     ("EDITOR", varIgnore); ("PAGER", varIgnore); ("BROWSER", varIgnore);
     ("HOME", varConvert); ("GOBIN", varConvert);
     ("PATH", varPath); ("GOPATH", varPath)].
End WslConfTable.

(** ** The end of the helper's [main] (wenvhelper, lines 57-79) *)

Module Helper.

(** The three standard streams of the helper, as [*os.File] values. *)
Inductive file : Type :=
| os_Stdin
| os_Stdout
| os_Stderr.

(** The fields of [exec.Cmd] that [main] sets; a stream left [nil] would be
    [None]. *)
Record Cmd : Type := {
  Path : string;
  Args : list string;
  Stdin : option file;
  Stdout : option file;
  Stderr : option file
}.

(** The error of [cmd.Wait]: an [*exec.ExitError], whose [Sys()] is a
    [syscall.WaitStatus] holding the exit code ([None] when the type
    assertion fails), or an error of another type. *)
Inductive waitError : Type :=
| ExitError (sys : option Z)
| OtherError.

(** What the system answers to the helper: whether [cmd.Start] succeeds and
    what [cmd.Wait] returns, [None] being [nil]. *)
Record system : Type := {
  Start : Cmd -> bool;
  Wait : Cmd -> option waitError
}.

Section Int.

(** The size of Go's [int], 32 or 64 bits. *)
Variable intSize : Z.

(** The conversion [int(x)] of an unsigned value: two's complement. *)
Definition toInt (x : Z) : Z :=
  let m := (x mod 2 ^ intSize)%Z in
  if (m <? 2 ^ (intSize - 1))%Z then m else (m - 2 ^ intSize)%Z.

(** [status.ExitStatus()] on Windows: [int(w.ExitCode)], the exit code
    being a [uint32]. *)
Definition ExitStatus (ExitCode : Z) : Z := toInt ExitCode.

(** [os.Exit(code)] on Windows ends the process with [uint32(code)]. *)
Definition os_Exit (code : Z) : Z := (code mod 2 ^ 32)%Z.

(** The command built from [os.Args], which holds the path of the target
    and then its arguments. *)
Definition command (path : string) (args : list string) : Cmd :=
  {| Path := path; Args := args;
     Stdin := Some os_Stdin; Stdout := Some os_Stdout;
     Stderr := Some os_Stderr |}.

(** From the construction of [cmd] to the end of [main]: the exit code of
    the helper.  [main] has checked that [os.Args] has at least two
    elements here. *)
Definition runTarget (sys : system) (osArgs : list string) : outcome Z :=
  match osArgs with
  | [] => Panic
  | path :: args =>
      let cmd := command path args in
      if negb (Start sys cmd) then Ok (os_Exit 126)
      else
        let code :=
          match Wait sys cmd with
          | None => Some 0%Z
          | Some (ExitError (Some status)) => Some (ExitStatus status)
          | Some (ExitError None) => Some 0%Z
          | Some OtherError => None
          end in
        match code with
        | Some code => Ok (os_Exit code)
        | None => Ok (os_Exit 126)
        end
  end.

(** What [cmd.Wait] returns for a child that was started, whose streams
    are files, and that exits with [code]: [nil] for the code 0, and an
    [*exec.ExitError] carrying the wait status otherwise. *)
Definition waitExited (code : Z) : option waitError :=
  if (code =? 0)%Z then None else Some (ExitError (Some code)).

End Int.

End Helper.

(** ** The properties in the words of the specification *)

(** [strings.IndexByte(s, c) >= 0]. *)
Fixpoint hasByte (c : ascii) (s : string) : bool :=
  match s with
  | "" => false
  | String d s' => Ascii.eqb d c || hasByte c s'
  end.

(** [path] matches [^root[a-z](/|$)], with [c] the drive letter and [rest]
    what follows it. *)
Definition mounted (root path : string) (c : ascii) (rest : string) : Prop :=
  path = root +:+ String c rest /\ lower c = true /\
  (rest = "" \/ exists rest', rest = String "/" rest').

(** The failure of [winpath]. *)
Definition unconvertible : string * option error :=
  ("", Some (errors_New "could not convert path")).

(** [wp] rewrites the drive prefix of [path] exactly when [path] matches: the
    matched prefix becomes the upper-case letter and a colon; every [/]
    becomes [\]; a result that starts with [\] is the failure. *)
Definition rewritesWhen (matches : string -> ascii -> string -> Prop)
    (wp : string -> string * option error) (path : string) : Prop :=
  (forall c rest, matches path c rest ->
     wp path = (String (upperByte c) (String ":" (ReplaceAll rest "/" "\")), None))
  /\ ((forall c rest, ~ matches path c rest) ->
     wp path = if HasPrefix (ReplaceAll path "/" "\") "\" then unconvertible
               else (ReplaceAll path "/" "\", None)).

(** The fixed pattern [^(/mnt)?/[a-z](/|$)]. *)
Definition mountedMnt (path : string) (c : ascii) (rest : string) : Prop :=
  mounted "/mnt/" path c rest \/ mounted "/" path c rest.

(** A path that starts with a drive letter and a colon, [^[A-Za-z]:], as a
    Windows path does. *)
Definition driveLetter (p : string) : bool :=
  match p with
  | String c (String d _) => letter c && Ascii.eqb d ":"
  | _ => false
  end.

(** The normal form of a path for its mount-root prefix.  Revision [MntRoot]
    takes a drive under [/mnt/x] and, for short, under [/x]: a path that
    matches [^/[a-z](/|$)] stands for the same path under [/mnt].  Every
    other path is its own normal form. *)
Definition normalise (p : string) : string :=
  match findDrive "/" p with
  | Some _ => "/mnt" +:+ p
  | None => p
  end.

(** Two paths are equal modulo the normalisation of the mount-root prefix. *)
Definition sameModRoot (p q : string) : Prop := normalise p = normalise q.

(** The round trip of [v]: when [winpath] converts it, [wslpath] gives back
    a path equal to [v] modulo the mount-root prefix. *)
Definition roundTrips (v : string) : Prop :=
  forall w, MntRoot.winpath v = (w, None) -> sameModRoot (MntRoot.wslpath w) v.

(** A path that does not start with [/] is converted by replacing every [/]
    with [\]. *)
Definition convertsRelative (wp : string -> string * option error) (path : string) : Prop :=
  HasPrefix path "/" = false -> wp path = (ReplaceAll path "/" "\", None).

(** The round trip of [v] in revision [WslConf], for the mount root [root].
    A drive has one prefix there, so that a path is its own normal form. *)
Definition roundTripsAt (root v : string) : Prop :=
  forall w, WslConf.winpathAt root v = (w, None) -> WslConf.wslpathAt root w = v.

(** What becomes of a segment of a path list: an empty segment stays, a
    segment that converts is converted, a segment that does not is dropped
    ([None]). *)
Definition segment (conv : string -> string * option error) (e : string) : option string :=
  if String.eqb e "" then Some ""
  else match conv e with
       | (w, None) => Some w
       | (_, Some _) => None
       end.

(** The value transmitted for a path list: split on [:], the segments that
    survive joined with [;]. *)
Definition pathList (conv : string -> string * option error) (value : string) : string :=
  Join (omap (segment conv) (Split value ":")) ";".

(** The leading [name=value] arguments of the command line, as pairs. *)
Fixpoint leadingPairs (args : list string) : list (string * string) :=
  match args with
  | [] => []
  | a :: args' =>
      match Cut a "=" with
      | Some nv => nv :: leadingPairs args'
      | None => []
      end
  end.

(** The set that holds exactly the given pairs; of two pairs with the same
    name the later one stands. *)
Definition exactly (pairs : list (string * string)) : gmap string string :=
  list_to_map (reverse pairs).

(** The entries of an override specification: split on commas, trimmed, the
    empty ones skipped. *)
Definition entries (wenv : string) : list string :=
  List.filter (fun e => negb (String.eqb e "")) (TrimSpace <$> Split wenv ",").

(** The name and the policy that each entry gives. *)
Definition overrides (wenv : string) : list (string * varopt) :=
  (fun e => ((modifier e).2, (modifier e).1)) <$> entries wenv.

(** Whether every entry names a variable. *)
Definition named (l : list (string * varopt)) : bool :=
  forallb (fun nv => negb (String.eqb nv.1 "")) l.

(** The table that the overrides give over the defaults: of two overrides of
    a name the later one stands, and an override stands over the default. *)
Definition overlay (l : list (string * varopt)) (defaults : gmap string varopt)
  : gmap string varopt :=
  list_to_map (reverse l) ∪ defaults.

(** The retry policy of a launcher [run], in the words of the specification:
    [ENOMEM] is retried 10 times, so that the eleventh [ENOMEM] ends the
    launcher with code 1; any other failure ends it with code 1 at once. *)
Definition retryPolicy (run : (nat -> execResult) -> option launched) : Prop :=
  (forall Exec, (forall i, Exec i = Failed (Errno ENOMEM)) ->
     run Exec = Some (Returned 1 11))
  /\ (forall Exec k err, (k <= 10)%nat ->
        (forall i, (i < k)%nat -> Exec i = Failed (Errno ENOMEM)) ->
        Exec k = Failed err -> err <> Errno ENOMEM ->
        run Exec = Some (Returned 1 (S k)))
  /\ (forall Exec k, (k <= 10)%nat ->
        (forall i, (i < k)%nat -> Exec i = Failed (Errno ENOMEM)) ->
        Exec k = Replaced ->
        run Exec = Some (ImageReplaced (S k))).

(** ** The launch (wenv.go, lines 160-218 and 441-491) *)

Module Launcher.

(** The name of the helper program. *)
Definition helper : string := "wenvhelper.exe".

(** What the launcher does to the handoff file, and its calls of
    [syscall.Exec]: [Created] when [ioutil.TempFile] has returned the file,
    [Encoded] and [Closed] when [enc.Encode] and [file.Close] have returned
    without error, [Removed] when the deferred [os.Remove] is called. *)
Inductive event : Type :=
| Created (file : string)
| Encoded (file : string) (vars : gmap string string)
| Closed (file : string)
| Removed (file : string)
| Execed (cmd : string) (argv envv : list string).

(** What the system answers to the launcher: [exec.LookPath] ([None] for an
    error), the output of [cmd.exe /c echo %TEMP%], the name of the file that
    [ioutil.TempFile(dir, pattern)] creates, whether [enc.Encode] and
    [file.Close] succeed, and the result of each call of [syscall.Exec]. *)
Record system : Type := {
  LookPath : string -> option string;
  Output : option string;
  TempFile : string -> string -> option string;
  Encode : gmap string string -> bool;
  Close : bool;
  Exec : nat -> execResult
}.

(** How [wenv] ends: it returns a code, which [main] passes to [os.Exit],
    or the image of the process is replaced by the helper. *)
Inductive ending : Type :=
| Exits (code : Z)
| Replaces.

(** The call of [syscall.Exec] of the two revisions: the loop of revision
    [MntRoot], which ends within eleven calls, and the single call of
    revision [WslConf]. *)
Definition exec (retry : bool) (Exec : nat -> execResult) : launched :=
  if retry then
    match execRetry Exec 11 0 with
    | Some r => r
    | None => Returned 1 0
    end
  else execOnce Exec.

Section Launch.

Context {St : Type}.
Variable winpath : string -> M St (string * option error).
Variable wslpath : string -> M St string.
Variable retry : bool.

(** [wenv] from the lookup of the target to its end.  [vars] is the set to
    transmit, [osArgs] the command line of the target, which is not empty,
    and [environ] is [os.Environ()].  The result holds the events in the
    order in which they happen. *)
Definition launch (sys : system) (vars : gmap string string)
    (osArgs environ : list string) : M St (ending * list event) :=
  match osArgs with
  | [] => panic
  | target :: _ =>
      match LookPath sys target with
      | None => ret (Exits 127, [])
      | Some path =>
          r <- winpath path ;;
          match r.2 with
          | Some _ => ret (Exits 126, [])
          | None =>
              let path := r.1 in
              match Output sys with
              | None => ret (Exits 1, [])
              | Some cmdout =>
                  tempdir <- wslpath (TrimSpace cmdout) ;;
                  match TempFile sys tempdir "wenv" with
                  | None => ret (Exits 1, [])
                  | Some file =>
                      if negb (Encode sys vars) then ret (Exits 1, [Created file])
                      else if negb (Close sys) then
                        ret (Exits 1, [Created file; Encoded file vars])
                      else
                        let written :=
                          [Created file; Encoded file vars; Closed file] in
                        match LookPath sys helper with
                        | None => ret (Exits 1, (written ++ [Removed file])%list)
                        | Some cmd =>
                            r <- winpath file ;;
                            match r.2 with
                            | Some _ =>
                                ret (Exits 1, (written ++ [Removed file])%list)
                            | None =>
                                let args := helper :: r.1 :: path :: osArgs in
                                let calls n := replicate n (Execed cmd args environ) in
                                match exec retry (Exec sys) with
                                | ImageReplaced n =>
                                    ret (Replaces, (written ++ calls n)%list)
                                | Returned code n =>
                                    ret (Exits code,
                                         (written ++ calls n ++ [Removed file])%list)
                                end
                            end
                        end
                  end
              end
          end
      end
  end.

(** [wenv]: [args] is [os.Args[1:]], [WENV] is [os.Getenv("WENV")] and
    [varopts] the table of the defaults. *)
Definition wenv (sys : system) (args environ : list string) (WENV : string)
    (varopts : gmap string varopt) : M St (ending * list event) :=
  c <- collect winpath args environ WENV varopts ;;
  match c with
  | Exit code => ret (Exits code, [])
  | Collected vars target => launch sys vars target environ
  end.

End Launch.

End Launcher.

(** [wslpath] of revision [MntRoot] as a computation. *)
Definition MntRootWslpath (path : string) : M unit string :=
  ret (MntRoot.wslpath path).

(** ** The helper's [main] (wenvhelper, lines 22-80) *)

Module HelperMain.

Definition fileprefix : string := "wenv".

(** What the helper does: [Opened], [Closed] and [Removed] when [os.Open],
    [file.Close] and [os.Remove] have returned without error, [EnvSet] when
    [os.Setenv] has, [Started] when [cmd.Start] has. *)
Inductive event : Type :=
| Opened (file : string)
| Closed (file : string)
| Removed (file : string)
| EnvSet (key value : string)
| Started (cmd : Helper.Cmd).

(** What the system answers to the helper: [filepath.Base], whether
    [os.Open], [file.Close], [os.Remove] and [os.Setenv] succeed, what the
    decoder reads from the file ([None] for an error), the order in which
    [range] goes over a map, and the answers on the target process. *)
Record host : Type := {
  Base : string -> string;
  Open : string -> bool;
  Decode : option (gmap string string);
  Close : bool;
  Remove : string -> bool;
  range : gmap string string -> list (string * string);
  Setenv : string -> string -> bool;
  process : Helper.system
}.

(** The loop over the decoded variables: whether every [os.Setenv]
    succeeded, and the variables set. *)
Fixpoint setAll (h : host) (kvs : list (string * string)) : bool * list event :=
  match kvs with
  | [] => (true, [])
  | (k, v) :: kvs' =>
      if Setenv h k v then
        let '(ok, sets) := setAll h kvs' in (ok, EnvSet k v :: sets)
      else (false, [])
  end.

(** [main]: [args] is [os.Args[1:]].  [log.Fatal] exits with code 1.  The
    result is the exit code and the events in the order in which they
    happen. *)
Definition main (intSize : Z) (h : host) (args : list string)
  : outcome (Z * list event) :=
  if (length args <? 3)%nat then Ok (1%Z, [])
  else
    match args with
    | [] => Panic
    | file :: args1 =>
        if negb (HasPrefix (Base h file) fileprefix) then Ok (1%Z, [])
        else if negb (Open h file) then Ok (1%Z, [])
        else
          match Decode h with
          | None => Ok (1%Z, [Opened file])
          | Some vars =>
              if negb (Close h) then Ok (1%Z, [Opened file])
              else if negb (Remove h file) then Ok (1%Z, [Opened file; Closed file])
              else
                let '(ok, sets) := setAll h (range h vars) in
                let done := ([Opened file; Closed file; Removed file] ++ sets)%list in
                if negb ok then Ok (1%Z, done)
                else
                  match args1 with
                  | [] => Panic
                  | path :: targs =>
                      let cmd := Helper.command path targs in
                      match Helper.runTarget intSize (process h) args1 with
                      | Ok code =>
                          Ok (code,
                              if Helper.Start (process h) cmd
                              then (done ++ [Started cmd])%list else done)
                      | Panic => Panic
                      end
                  end
          end
    end.

End HelperMain.

(** ** More properties in the words of the code *)

(** The ways in which the launch can end, with the events of each: before
    the handoff file is created; with the file created but not written, or
    written but not closed; with the file closed and then removed; with the
    image replaced. *)
Inductive launchShape {St : Type} (winpath : string -> M St (string * option error))
    (retry : bool) (sys : Launcher.system) (vars : gmap string string)
    (osArgs environ : list string) : Launcher.ending -> list Launcher.event -> Prop :=
| shape_early (code : Z) :
    code = 127%Z \/ code = 126%Z \/ code = 1%Z ->
    (code = 127%Z <-> Launcher.LookPath sys (hd "" osArgs) = None) ->
    launchShape winpath retry sys vars osArgs environ (Launcher.Exits code) []
| shape_unwritten (file : string) :
    launchShape winpath retry sys vars osArgs environ (Launcher.Exits 1)
      [Launcher.Created file]
| shape_unclosed (file : string) :
    launchShape winpath retry sys vars osArgs environ (Launcher.Exits 1)
      [Launcher.Created file; Launcher.Encoded file vars]
| shape_failed (file cmd : string) (argv : list string) (n : nat) :
    (n <= 11)%nat ->
    launchShape winpath retry sys vars osArgs environ (Launcher.Exits 1)
      ([Launcher.Created file; Launcher.Encoded file vars; Launcher.Closed file]
       ++ replicate n (Launcher.Execed cmd argv environ) ++ [Launcher.Removed file])
| shape_replaced (path file cmd wfile wpath : string) (n : nat) (s1 s2 s3 s4 : St) :
    (1 <= n <= 11)%nat -> (retry = false -> n = 1%nat) ->
    Launcher.LookPath sys (hd "" osArgs) = Some path ->
    winpath path s1 = Ok ((wpath, None), s2) ->
    Launcher.LookPath sys Launcher.helper = Some cmd ->
    winpath file s3 = Ok ((wfile, None), s4) ->
    Launcher.Exec sys (n - 1)%nat = Replaced ->
    launchShape winpath retry sys vars osArgs environ Launcher.Replaces
      ([Launcher.Created file; Launcher.Encoded file vars; Launcher.Closed file]
       ++ replicate n
            (Launcher.Execed cmd (Launcher.helper :: wfile :: wpath :: osArgs) environ)).



(** [strings.Count(s, sep)] for a one-byte separator. *)
Fixpoint countByte (c : ascii) (s : string) : nat :=
  match s with
  | "" => 0
  | String d s' => (if Ascii.eqb d c then 1 else 0) + countByte c s'
  end.

(** [line] is the first line of the file [b] that contains [root]. *)
Definition firstRootLine (b line : string) : Prop :=
  exists skipped rest,
    Split b "010" = (skipped ++ line :: rest)%list
    /\ (forall l, l ∈ skipped -> Contains l "root" = false)
    /\ Contains line "root" = true.

(** The name of an entry [name=value] of the environment or of the command
    line: what [strings.SplitN(e, "=", 2)] returns first. *)
Definition entryName (e : string) : string :=
  match Cut e "=" with
  | Some (name, _) => name
  | None => e
  end.

(** [winpath] of revision [MntRoot] as a computation: it uses no global. *)
Definition MntRootWinpath (path : string) : M unit (string * option error) :=
  ret (MntRoot.winpath path).

(** One turn of the loop over the environment when [winpath] computes
    [conv] and touches no global: the new set, or [None] for a panic. *)
Definition forward (conv : string -> string * option error)
    (T : gmap string varopt) (e : string) (vars : gmap string string)
  : option (gmap string string) :=
  match Cut e "=" with
  | None =>
      match T !! e with
      | Some varIgnore => Some vars
      | _ => None
      end
  | Some (n, v) =>
      match T !! n with
      | Some varIgnore => Some vars
      | Some varPass | None => Some (<[n := v]> vars)
      | Some varConvert =>
          match conv v with
          | (w, None) => Some (<[n := w]> vars)
          | (_, Some _) => Some vars
          end
      | Some varPath => Some (<[n := pathList conv v]> vars)
      end
  end.

Fixpoint forwardAll (conv : string -> string * option error)
    (T : gmap string varopt) (environ : list string) (vars : gmap string string)
  : option (gmap string string) :=
  match environ with
  | [] => Some vars
  | e :: environ' =>
      match forward conv T e vars with
      | Some vars' => forwardAll conv T environ' vars'
      | None => None
      end
  end.

(** The collector transmits the path list [value] of the variable [n]:
    [wenv], run on the command line [args] and the environment [environ]
    from the state [st] of the globals of [winpath], puts [n] in the set to
    transmit with the value split on [:], the segments converted by [conv]
    and those that survive joined with [;]; it does collect a set when no
    entry of the environment lacks its [=] (but for the ignored ones); and
    what it writes to the handoff file has [n] with that value. *)
Definition transmitsPathList {St : Type}
    (winpath : string -> M St (string * option error)) (st : St)
    (conv : string -> string * option error)
    (T : gmap string varopt) (WENV : string) (args environ : list string)
    (n value : string) : Prop :=
  (forall vars target st',
     collect winpath args environ WENV T st = Ok (Collected vars target, st') ->
     vars !! n = Some (pathList conv value))
  /\ ((forall e, e ∈ environ -> hasByte "=" e = false ->
         (getvaropts WENV T).1 !! e = Some varIgnore) ->
      exists vars st',
        collect winpath args environ WENV T st = Ok (Collected vars args, st'))
  /\ (forall (wslpath : string -> M St string) retry sys e tr st' file written,
        Launcher.wenv winpath wslpath retry sys args environ WENV T st
          = Ok ((e, tr), st') ->
        Launcher.Encoded file written ∈ tr ->
        written !! n = Some (pathList conv value)).

(** A system in which every step of the launch succeeds: programs are found
    under [/mnt/c/bin/], the temporary directory of Windows is [C:\Temp], and
    the handoff file gets the suffix [042]. *)
Definition obligingSystem (exec : nat -> execResult) : Launcher.system :=
  {| Launcher.LookPath := fun name => Some ("/mnt/c/bin/" +:+ name);
     Launcher.Output := Some ("C:\Temp" +:+ String "013" (String "010" ""));
     Launcher.TempFile := fun dir pattern => Some (dir +:+ "/" +:+ pattern +:+ "042");
     Launcher.Encode := fun _ => true;
     Launcher.Close := true;
     Launcher.Exec := exec |}.


(** A host of the helper in which every step succeeds: the base name of a
    path is what follows its last backslash, [range] goes over a map in the
    order of its keys, and the decoder reads [decoded]. *)
Definition obligingHost (decoded : option (gmap string string))
    (sys : Helper.system) : HelperMain.host :=
  {| HelperMain.Base := fun p => default "" (last (Split p "\"));
     HelperMain.Open := fun _ => true;
     HelperMain.Decode := decoded;
     HelperMain.Close := true;
     HelperMain.Remove := fun _ => true;
     HelperMain.range := map_to_list;
     HelperMain.Setenv := fun _ _ => true;
     HelperMain.process := sys |}.

(** A target process that starts and exits with [code]. *)
Definition exiting (code : Z) : Helper.system :=
  {| Helper.Start := fun _ => true;
     Helper.Wait := fun _ => Helper.waitExited code |}.
(** ** Lemmas on strings *)

Section StringLemmas.

Lemma append_nil_l (s : string) : "" +:+ s = s.
Proof. reflexivity. Qed.

Lemma append_cons (c : ascii) (s t : string) :
  String c s +:+ t = String c (s +:+ t).
Proof. reflexivity. Qed.

Lemma append_assoc (s1 s2 s3 : string) : (s1 +:+ s2) +:+ s3 = s1 +:+ (s2 +:+ s3).
Proof.
  induction s1 as [|c s1 IH]; [reflexivity|]. now rewrite !append_cons, IH.
Qed.

Lemma CutPrefix_app (p s : string) : CutPrefix (p +:+ s) p = Some s.
Proof.
  induction p as [|c p IH]; [reflexivity|].
  rewrite append_cons. simpl. now rewrite Ascii.eqb_refl.
Qed.

Lemma CutPrefix_Some (p s r : string) : CutPrefix s p = Some r -> s = p +:+ r.
Proof.
  revert s. induction p as [|c p IH]; intros s H; simpl in *.
  - now inversion H.
  - destruct s as [|d s]; [discriminate|].
    destruct (Ascii.eqb d c) eqn:E; [|discriminate].
    apply Ascii.eqb_eq in E. subst d. rewrite append_cons. f_equal. now apply IH.
Qed.

Lemma ReplaceAll_absent (s : string) (a b : ascii) :
  hasByte a s = false -> ReplaceAll s a b = s.
Proof.
  induction s as [|c s IH]; simpl; [reflexivity|].
  intros H. apply orb_false_iff in H as [H1 H2].
  rewrite H1. f_equal. now apply IH.
Qed.

Lemma hasByte_ReplaceAll (s : string) (a b : ascii) :
  a <> b -> hasByte a (ReplaceAll s a b) = false.
Proof.
  intros Hab. induction s as [|c s IH]; simpl; [reflexivity|].
  rewrite IH, orb_false_r.
  destruct (Ascii.eqb c a) eqn:E; [|exact E].
  apply Ascii.eqb_neq. congruence.
Qed.

Lemma ReplaceAll_idem (s : string) (a b : ascii) :
  a <> b -> ReplaceAll (ReplaceAll s a b) a b = ReplaceAll s a b.
Proof. intros Hab. apply ReplaceAll_absent. now apply hasByte_ReplaceAll. Qed.

(** Replacing [a] by [b] and back gives the string when it has no [b]. *)
Lemma ReplaceAll_back (s : string) (a b : ascii) :
  hasByte b s = false -> ReplaceAll (ReplaceAll s a b) b a = s.
Proof.
  induction s as [|c s IH]; simpl; [reflexivity|].
  intros H. apply orb_false_iff in H as [H1 H2].
  rewrite (IH H2). f_equal.
  destruct (Ascii.eqb c a) eqn:E.
  - rewrite Ascii.eqb_refl. apply Ascii.eqb_eq in E. congruence.
  - now rewrite H1.
Qed.

Lemma hasByte_app (c : ascii) (s1 s2 : string) :
  hasByte c (s1 +:+ s2) = hasByte c s1 || hasByte c s2.
Proof.
  induction s1 as [|d s1 IH]; [reflexivity|].
  rewrite append_cons. simpl. now rewrite IH, orb_assoc.
Qed.

Lemma Cut_app (name value : string) (sep : ascii) :
  hasByte sep name = false ->
  Cut (name +:+ String sep value) sep = Some (name, value).
Proof.
  induction name as [|c name IH]; intros H.
  - rewrite append_nil_l. simpl. now rewrite Ascii.eqb_refl.
  - simpl in H. apply orb_false_iff in H as [H1 H2].
    rewrite append_cons. simpl. now rewrite H1, (IH H2).
Qed.

(** The letters and their cases. *)
Lemma upperByte_lower (c : ascii) :
  lower c = true ->
  lowerByte (upperByte c) = c /\ letter (upperByte c) = true
  /\ Ascii.eqb (upperByte c) "/" = false /\ Ascii.eqb (upperByte c) "\" = false.
Proof.
  destruct c as [[] [] [] [] [] [] [] []]; vm_compute; intros H;
    first [discriminate H | repeat split].
Qed.

Lemma lowerByte_letter (c : ascii) :
  letter c = true ->
  lower (lowerByte c) = true /\ Ascii.eqb (lowerByte c) "\" = false
  /\ Ascii.eqb c "/" = false /\ Ascii.eqb c "\" = false.
Proof.
  destruct c as [[] [] [] [] [] [] [] []]; vm_compute; intros H;
    first [discriminate H | repeat split].
Qed.

End StringLemmas.

(** ** Lemmas on the patterns and on the path translation *)

Section PathLemmas.

Lemma sepOrEnd_spec (rest : string) :
  sepOrEnd rest = true <-> rest = "" \/ exists rest', rest = String "/" rest'.
Proof.
  destruct rest as [|d rest]; simpl.
  - split; auto.
  - split.
    + intros H. apply Ascii.eqb_eq in H. subst. right. eauto.
    + intros [H|[r H]]; [discriminate|]. inversion H. reflexivity.
Qed.

Lemma findDrive_mounted (root path : string) (c : ascii) :
  findDrive root path = Some c <-> exists rest, mounted root path c rest.
Proof.
  unfold findDrive, mounted. split.
  - destruct (CutPrefix path root) as [[|d rest]|] eqn:E; try discriminate.
    destruct (lower d) eqn:L; [|discriminate].
    destruct (sepOrEnd rest) eqn:S; [|discriminate].
    simpl. intros H. inversion H. subst d. exists rest.
    split; [now apply CutPrefix_Some|]. split; [exact L|].
    now apply sepOrEnd_spec.
  - intros [rest (-> & L & S)]. rewrite CutPrefix_app, L.
    apply sepOrEnd_spec in S. now rewrite S.
Qed.

Lemma findDrive_None (root path : string) :
  (forall c rest, ~ mounted root path c rest) -> findDrive root path = None.
Proof.
  intros H. destruct (findDrive root path) as [c|] eqn:E; [|reflexivity].
  apply findDrive_mounted in E as [rest E]. now destruct (H c rest).
Qed.

Lemma replaceDrive_mounted (root path repl : string) (c : ascii) (rest : string) :
  mounted root path c rest -> replaceDrive root path repl = repl +:+ rest.
Proof.
  intros (-> & L & _). unfold replaceDrive. now rewrite CutPrefix_app, L.
Qed.

(** The translation of a path whose drive prefix has been rewritten. *)
Lemma convert_rewritten (c : ascii) (rest : string) :
  lower c = true ->
  (let path := ReplaceAll ((ToUpper (String c "") +:+ ":") +:+ rest) "/" "\" in
   if HasPrefix path "\" then unconvertible else (path, None))
  = (String (upperByte c) (String ":" (ReplaceAll rest "/" "\")), None).
Proof.
  intros L. destruct (upperByte_lower c L) as (_ & _ & H1 & H2).
  cbv zeta. unfold ToUpper. simpl mapBytes.
  rewrite !append_cons, !append_nil_l. simpl.
  now rewrite H1, H2.
Qed.

Lemma winpathAt_rule (root path : string) :
  rewritesWhen (mounted root) (WslConf.winpathAt root) path.
Proof.
  split.
  - intros c rest H. unfold WslConf.winpathAt.
    assert (findDrive root path = Some c) as -> by (apply findDrive_mounted; eauto).
    rewrite (replaceDrive_mounted _ _ _ _ _ H).
    apply convert_rewritten, H.
  - intros H. unfold WslConf.winpathAt. now rewrite (findDrive_None _ _ H).
Qed.

(** A path under [/x] is not under [/mnt/x]. *)
Lemma mounted_slash_not_mnt (path : string) (c : ascii) (rest : string) :
  mounted "/" path c rest -> CutPrefix path "/mnt/" = None.
Proof.
  intros (-> & L & S). apply sepOrEnd_spec in S.
  rewrite append_cons, append_nil_l. simpl.
  destruct (Ascii.eqb c "m"); [|reflexivity].
  destruct rest as [|d rest]; [reflexivity|].
  simpl in S. apply Ascii.eqb_eq in S. now subst d.
Qed.

Lemma findMnt_mounted (path : string) (c : ascii) (rest : string) :
  mountedMnt path c rest -> MntRoot.findMnt path = Some c.
Proof.
  unfold MntRoot.findMnt. intros [H|H].
  - assert (findDrive "/mnt/" path = Some c) as -> by (apply findDrive_mounted; eauto).
    reflexivity.
  - assert (findDrive "/" path = Some c) as E by (apply findDrive_mounted; eauto).
    unfold findDrive at 1. now rewrite (mounted_slash_not_mnt _ _ _ H).
Qed.

Lemma findMnt_None (path : string) :
  (forall c rest, ~ mountedMnt path c rest) -> MntRoot.findMnt path = None.
Proof.
  intros H. unfold MntRoot.findMnt.
  rewrite !findDrive_None; [reflexivity| |];
    intros c rest M; apply (H c rest); [right|left]; exact M.
Qed.

Lemma replaceMnt_mounted (path repl : string) (c : ascii) (rest : string) :
  mountedMnt path c rest -> MntRoot.replaceMnt path repl = repl +:+ rest.
Proof.
  unfold MntRoot.replaceMnt. intros [H|H].
  - destruct H as (-> & L & _). now rewrite CutPrefix_app, L.
  - rewrite (mounted_slash_not_mnt _ _ _ H).
    now apply replaceDrive_mounted with (c := c).
Qed.

Lemma MntRoot_winpath_rule (path : string) :
  rewritesWhen mountedMnt MntRoot.winpath path.
Proof.
  split.
  - intros c rest H. unfold MntRoot.winpath.
    rewrite (findMnt_mounted _ _ _ H), (replaceMnt_mounted _ _ _ _ H).
    apply convert_rewritten. destruct H as [H|H]; apply H.
  - intros H. unfold MntRoot.winpath. now rewrite (findMnt_None _ H).
Qed.

End PathLemmas.

Section WslpathLemmas.

Lemma MntRoot_wslpath_eq (p : string) :
  MntRoot.wslpath p = WslConf.wslpathAt "/mnt/" p.
Proof. reflexivity. Qed.

(** What [wslpath] returns, by the shape of the path. *)
Lemma wslpathAt_cases (root p : string) :
  let q := ReplaceAll p "\" "/" in
  (findLetter q = None /\ WslConf.wslpathAt root p = q)
  \/ (exists c rest, q = String c (String ":" rest) /\ letter c = true
      /\ rest = ReplaceAll rest "\" "/"
      /\ WslConf.wslpathAt root p = root +:+ String (lowerByte c) rest).
Proof.
  cbv zeta. unfold WslConf.wslpathAt.
  destruct (findLetter (ReplaceAll p "\" "/")) as [c|] eqn:E; [right | left; auto].
  destruct p as [|c0 [|c1 rest0]]; try discriminate E.
  simpl in E |- *.
  set (d0 := if Ascii.eqb c0 "\" then "/"%char else c0) in *.
  set (d1 := if Ascii.eqb c1 "\" then "/"%char else c1) in *.
  destruct (letter d0) eqn:L; [|discriminate E].
  destruct (Ascii.eqb d1 ":") eqn:C; [|discriminate E].
  simpl in E. inversion E. subst c.
  apply Ascii.eqb_eq in C. rewrite C.
  exists d0, (ReplaceAll rest0 "\" "/").
  repeat split; [exact L | symmetry; now apply ReplaceAll_idem |].
  simpl. unfold ToLower. simpl mapBytes.
  now rewrite append_assoc, append_cons, append_nil_l.
Qed.

(** A converted path under the default root is left as it is. *)
Lemma wslpathAt_mnt_idem (p : string) :
  WslConf.wslpathAt "/mnt/" (WslConf.wslpathAt "/mnt/" p) = WslConf.wslpathAt "/mnt/" p.
Proof.
  destruct (wslpathAt_cases "/mnt/" p) as [[N ->]|(c & rest & Q & L & R & ->)].
  - unfold WslConf.wslpathAt.
    rewrite ReplaceAll_idem by discriminate. now rewrite N.
  - destruct (lowerByte_letter c L) as (_ & B & _).
    unfold WslConf.wslpathAt. rewrite !append_cons, append_nil_l.
    simpl. now rewrite B, <- R.
Qed.

End WslpathLemmas.

Section RoundTripLemmas.

Lemma findMnt_Some (path : string) (c : ascii) :
  MntRoot.findMnt path = Some c -> exists rest, mountedMnt path c rest.
Proof.
  unfold MntRoot.findMnt, mountedMnt.
  destruct (findDrive "/mnt/" path) as [d|] eqn:E.
  - intros H. inversion H. subst d.
    apply findDrive_mounted in E as [rest E]. eauto.
  - intros H. apply findDrive_mounted in H as [rest H]. eauto.
Qed.

Lemma findMnt_None_inv (path : string) :
  MntRoot.findMnt path = None -> forall c rest, ~ mountedMnt path c rest.
Proof.
  intros H c rest M. apply findMnt_mounted in M. congruence.
Qed.

Lemma driveLetter_findLetter (p : string) :
  driveLetter p = false -> findLetter p = None.
Proof.
  destruct p as [|c [|d rest]]; try reflexivity. simpl. now intros ->.
Qed.

Lemma mounted_no_driveLetter (path : string) (c : ascii) (rest : string) :
  mounted "/mnt/" path c rest -> driveLetter path = false.
Proof. intros (-> & _). reflexivity. Qed.

Lemma normalise_mounted (path : string) (c : ascii) (rest : string) :
  mountedMnt path c rest -> normalise path = "/mnt/" +:+ String c rest.
Proof.
  unfold normalise. intros [M|M].
  - assert (findDrive "/" path = None) as ->
      by (destruct M as (-> & _); reflexivity).
    apply M.
  - assert (findDrive "/" path = Some c) as ->
      by (apply findDrive_mounted; eauto).
    destruct M as (-> & _). reflexivity.
Qed.

Lemma normalise_fixed (p : string) :
  MntRoot.findMnt p = None -> normalise p = p.
Proof.
  intros E. unfold normalise.
  destruct (findDrive "/" p) as [c|] eqn:F; [|reflexivity].
  apply findDrive_mounted in F as [rest F].
  now rewrite (findMnt_mounted p c rest (or_intror F)) in E.
Qed.

Lemma normalise_idem (p : string) : normalise (normalise p) = normalise p.
Proof.
  destruct (MntRoot.findMnt p) as [c|] eqn:E.
  - apply findMnt_Some in E as [rest M].
    rewrite (normalise_mounted _ _ _ M).
    apply normalise_mounted. left. split; [reflexivity|].
    destruct M as [M|M]; apply M.
  - now rewrite !(normalise_fixed p E).
Qed.

(** The key of the round trip: without [\] in [v] and without a drive
    letter at its start, [wslpath] after [winpath] gives the normal form of
    [v]. *)
Lemma wslpath_winpath (v w : string) :
  hasByte "\" v = false -> driveLetter v = false ->
  MntRoot.winpath v = (w, None) -> MntRoot.wslpath w = normalise v.
Proof.
  intros B D H. destruct (MntRoot_winpath_rule v) as [R1 R2].
  destruct (MntRoot.findMnt v) as [c|] eqn:E.
  - apply findMnt_Some in E as [rest M].
    rewrite (R1 _ _ M) in H. inversion H. subst w. clear H.
    rewrite (normalise_mounted _ _ _ M).
    assert (lower c = true) as L by (destruct M as [M|M]; apply M).
    assert (hasByte "\" rest = false) as Br.
    { destruct M as [(-> & _)|(-> & _)]; rewrite hasByte_app in B;
        apply orb_false_iff in B as [_ B]; simpl in B;
        now apply orb_false_iff in B as [_ B]. }
    destruct (upperByte_lower c L) as (Lo & Le & _ & U).
    unfold MntRoot.wslpath. simpl. rewrite U, Le. simpl.
    rewrite (ReplaceAll_back rest "/" "\" Br).
    unfold ToLower. simpl mapBytes. rewrite Lo.
    now rewrite append_assoc.
  - rewrite (R2 (findMnt_None_inv _ E)) in H.
    destruct (HasPrefix (ReplaceAll v "/" "\") "\"); [discriminate H|].
    inversion H. subst w. clear H.
    unfold MntRoot.wslpath.
    rewrite (ReplaceAll_back v "/" "\" B), (driveLetter_findLetter v D).
    symmetry. now apply normalise_fixed.
Qed.

End RoundTripLemmas.

Section RoundTripAtLemmas.

(** In revision [WslConf] the round trip gives back the path itself, for
    every mount root. *)
Lemma wslpathAt_winpathAt (root v w : string) :
  hasByte "\" v = false -> driveLetter v = false ->
  WslConf.winpathAt root v = (w, None) ->
  WslConf.wslpathAt root w = v.
Proof.
  intros B D H. destruct (winpathAt_rule root v) as [R1 R2].
  destruct (findDrive root v) as [c|] eqn:E.
  - apply findDrive_mounted in E as [rest M].
    rewrite (R1 _ _ M) in H. inversion H. subst w. clear H.
    destruct M as (-> & L & _).
    rewrite hasByte_app in B. apply orb_false_iff in B as [_ B].
    simpl in B. apply orb_false_iff in B as [_ B].
    destruct (upperByte_lower c L) as (Lo & Le & _ & U).
    unfold WslConf.wslpathAt. simpl. rewrite U, Le. simpl.
    rewrite (ReplaceAll_back rest "/" "\" B).
    unfold ToLower. simpl mapBytes. rewrite Lo.
    now rewrite append_assoc.
  - assert (forall c rest, ~ mounted root v c rest) as N.
    { intros c rest M. assert (findDrive root v = Some c) as E'
        by (apply findDrive_mounted; eauto). congruence. }
    rewrite (R2 N) in H.
    destruct (HasPrefix (ReplaceAll v "/" "\") "\"); [discriminate H|].
    inversion H. subst w. clear H.
    unfold WslConf.wslpathAt.
    now rewrite (ReplaceAll_back v "/" "\" B), (driveLetter_findLetter v D).
Qed.

End RoundTripAtLemmas.

(** ** The path translation: the claims *)




(** C9, as it is written, fails: [\foo] does not begin with [/], and both
    revisions reject it, because the path itself starts with [\]. *)
Lemma winpath_leading_backslash_rejected :
  ~ convertsRelative (WslConf.winpathAt WslConf.defaultRoot) "\foo"
  /\ ~ convertsRelative MntRoot.winpath "\foo".
Proof.
  split; intros H; specialize (H eq_refl); discriminate H.
Qed.

(** C9, amended: under the default mount root, a path that begins neither
    with [/] nor with [\] is always converted, to the path with every [/]
    replaced by [\]: no drive prefix is introduced.  This holds in both
    revisions and covers the empty string. *)
Theorem winpath_relative (path : string) :
  HasPrefix path "/" = false -> HasPrefix path "\" = false ->
  WslConf.winpathAt WslConf.defaultRoot path = (ReplaceAll path "/" "\", None)
  /\ MntRoot.winpath path = (ReplaceAll path "/" "\", None).
Proof.
  intros S B. destruct path as [|c path]; [split; reflexivity|].
  simpl in S, B. rewrite andb_true_r in S, B.
  unfold WslConf.winpathAt, MntRoot.winpath, MntRoot.findMnt, findDrive.
  simpl. rewrite S. simpl. rewrite S, B. split; reflexivity.
Qed.

Lemma winpath_relative_witness :
  WslConf.winpathAt WslConf.defaultRoot "src/wenv" = ("src\wenv", None)
  /\ MntRoot.winpath "src/wenv" = ("src\wenv", None).
Proof. apply (winpath_relative "src/wenv"); reflexivity. Defined.

(** C10: under the default mount root [wslpath] always returns, and applying
    it twice gives what applying it once gives.  This holds for the body of
    the function in both revisions; the function that reads the mount root on
    first use returns with that body's result when the root is already the
    default, and when it is not yet set and the configuration is absent. *)
Theorem wslpath_idempotent :
  (forall p, WslConf.wslpathAt WslConf.defaultRoot (WslConf.wslpathAt WslConf.defaultRoot p)
             = WslConf.wslpathAt WslConf.defaultRoot p)
  /\ (forall p, MntRoot.wslpath (MntRoot.wslpath p) = MntRoot.wslpath p)
  /\ (forall conf p, WslConf.wslpath conf p WslConf.defaultRoot
                     = Ok (WslConf.wslpathAt WslConf.defaultRoot p, WslConf.defaultRoot))
  /\ (forall p, WslConf.wslpath None p ""
                = Ok (WslConf.wslpathAt WslConf.defaultRoot p, WslConf.defaultRoot))
  /\ (forall conf p,
        (r <- WslConf.wslpath conf p ;; WslConf.wslpath conf r) WslConf.defaultRoot
        = WslConf.wslpath conf p WslConf.defaultRoot).
Proof.
  split; [apply wslpathAt_mnt_idem|].
  split; [intros p; rewrite !MntRoot_wslpath_eq; apply wslpathAt_mnt_idem|].
  split; [reflexivity|]. split; [reflexivity|].
  assert (forall conf p, WslConf.wslpath conf p "/mnt/"
                         = Ok (WslConf.wslpathAt "/mnt/" p, "/mnt/")) as E
    by reflexivity.
  intros conf p. unfold bind, WslConf.defaultRoot.
  now rewrite !E, wslpathAt_mnt_idem.
Qed.

(** C3, as it is written, fails in two ways.  A path with a [\] is
    converted, [a\b] to itself, and comes back as [a/b], which is another
    path.  A path that starts with a drive letter and a colon is converted,
    [c:relative] to itself, and comes back under the mount root, as
    [/mnt/crelative].  In neither case do the two paths differ by their
    mount-root prefix.  In both revisions. *)
Lemma roundtrip_fails :
  ~ roundTrips "a\b" /\ ~ roundTrips "c:relative"
  /\ ~ roundTripsAt WslConf.defaultRoot "a\b"
  /\ ~ roundTripsAt WslConf.defaultRoot "c:relative".
Proof.
  split; [|split; [|split]]; intros H.
  - specialize (H "a\b" eq_refl). discriminate H.
  - specialize (H "c:relative" eq_refl). discriminate H.
  - specialize (H "a\b" eq_refl). discriminate H.
  - specialize (H "c:relative" eq_refl). discriminate H.
Qed.

(** C3, amended: for every string [v] without [\] that does not start with
    a drive letter and a colon, if [winpath] converts [v] to [w] then
    [wslpath w] is equal to [v] modulo the normalisation of the mount-root
    prefix, and is the normal form of [v]: in revision [MntRoot] the only
    paths that change are those under [/x], which come back under [/mnt/x];
    in revision [WslConf] the round trip gives back [v] itself, for every
    mount root.  For a path under [/mnt/x] the round trip gives back [v]
    itself in both revisions. *)
Theorem winpath_wslpath_roundtrip (v w : string) :
  hasByte "\" v = false ->
  (driveLetter v = false -> MntRoot.winpath v = (w, None) ->
     sameModRoot (MntRoot.wslpath w) v /\ MntRoot.wslpath w = normalise v)
  /\ (driveLetter v = false -> forall root, plain root = true ->
      WslConf.winpathAt root v = (w, None) -> WslConf.wslpathAt root w = v)
  /\ (forall c rest, mounted "/mnt/" v c rest ->
        MntRoot.wslpath (MntRoot.winpath v).1 = v
        /\ WslConf.wslpathAt WslConf.defaultRoot
             (WslConf.winpathAt WslConf.defaultRoot v).1 = v).
Proof.
  intros B. split; [|split].
  - intros D H. pose proof (wslpath_winpath v w B D H) as K. split; [|exact K].
    unfold sameModRoot. now rewrite K, normalise_idem.
  - intros D root _ H. exact (wslpathAt_winpathAt root v w B D H).
  - intros c rest M. pose proof (mounted_no_driveLetter v c rest M) as D. split.
    + pose proof (proj1 (MntRoot_winpath_rule v) c rest (or_introl M)) as R.
      rewrite R. cbn [fst].
      rewrite (wslpath_winpath v _ B D R), (normalise_mounted v c rest (or_introl M)).
      symmetry. apply M.
    + pose proof (proj1 (winpathAt_rule "/mnt/" v) c rest M) as R.
      unfold WslConf.defaultRoot. rewrite R. cbn [fst].
      exact (wslpathAt_winpathAt "/mnt/" v _ B D R).
Qed.

Lemma winpath_wslpath_roundtrip_witness :
  sameModRoot (MntRoot.wslpath "C:\Users") "/c/Users"
  /\ MntRoot.wslpath "C:\Users" = normalise "/c/Users".
Proof.
  apply (proj1 (winpath_wslpath_roundtrip "/c/Users" "C:\Users" eq_refl) eq_refl).
  reflexivity.
Defined.

(** ** Lemmas on the collection of the variables *)

Lemma SplitN_2 (s : string) (sep : ascii) :
  SplitN s sep 2 = match Cut s sep with
                   | Some (before, after) => [before; after]
                   | None => [s]
                   end.
Proof. simpl. now destruct (Cut s sep) as [[b a]|]. Qed.

Section CollectorLemmas.

Context {St : Type}.
Variable winpath : string -> M St (string * option error).

(** [winpath] computes [conv] in every state of [inv], and stays in [inv]. *)
Variable conv : string -> string * option error.
Variable inv : St -> Prop.
Hypothesis winpath_conv :
  forall path st, inv st -> exists st', winpath path st = Ok (conv path, st') /\ inv st'.
Hypothesis conv_empty : conv "" = ("", None).

Lemma segment_conv (e : string) :
  segment conv e = match (conv e).2 with
                   | Some _ => None
                   | None => Some (conv e).1
                   end.
Proof.
  unfold segment. destruct (String.eqb e "") eqn:E.
  - apply String.eqb_eq in E. subst e. now rewrite conv_empty.
  - now destruct (conv e) as [w [err|]].
Qed.

Lemma convertSegments_spec (segments p : list string) (st : St) :
  inv st ->
  exists st', convertSegments winpath segments p st
              = Ok ((p ++ omap (segment conv) segments)%list, st') /\ inv st'.
Proof.
  revert p st. induction segments as [|e segments IH]; intros p st I.
  - exists st. simpl. unfold ret. now rewrite app_nil_r.
  - destruct (winpath_conv e st I) as (st1 & E & I1).
    simpl. unfold bind at 1. rewrite E. rewrite segment_conv.
    destruct ((conv e).2) as [err|].
    + apply IH, I1.
    + destruct (IH (p ++ [(conv e).1])%list st1 I1) as (st' & E' & I').
      exists st'. split; [|exact I']. rewrite E'. now rewrite <- app_assoc.
Qed.

(** An entry of the environment whose policy is [varPath]. *)
Lemma collectEntry_varPath (varopts : gmap string varopt) (name value : string)
    (vars : gmap string string) (st : St) :
  inv st -> hasByte "=" name = false -> varopts !! name = Some varPath ->
  exists st', collectEntry winpath varopts (name +:+ String "=" value) vars st
              = Ok (<[name := pathList conv value]> vars, st') /\ inv st'.
Proof.
  intros I N V. unfold collectEntry.
  rewrite SplitN_2, (Cut_app name value "=" N), V.
  destruct (convertSegments_spec (Split value ":") [] st I) as (st' & E & I').
  exists st'. split; [|exact I'].
  unfold bind, index1, ret. simpl. now rewrite E.
Qed.

Lemma pathList_all_fail (value : string) :
  (forall e, e ∈ Split value ":" -> (conv e).2 <> None) -> pathList conv value = "".
Proof.
  intros H. unfold pathList.
  assert (omap (segment conv) (Split value ":") = []) as ->; [|reflexivity].
  induction (Split value ":") as [|e l IH]; [reflexivity|].
  simpl. rewrite segment_conv.
  destruct ((conv e).2) eqn:E.
  - apply IH. intros e' He'. apply H. now right.
  - exfalso. apply (H e); [left | exact E].
Qed.

End CollectorLemmas.

Section ExplicitLemmas.

Lemma explicitVars_cons (a : string) (args : list string) (vars : gmap string string) :
  explicitVars (a :: args) vars
  = match Cut a "=" with
    | Some (name, value) => explicitVars args (<[name := value]> vars)
    | None => (vars, a :: args)
    end.
Proof. simpl. now destruct (Cut a "=") as [[name value]|]. Qed.

Lemma exactly_snoc (seen : list (string * string)) (name value : string) :
  exactly (seen ++ [(name, value)]) = <[name := value]> (exactly seen).
Proof. unfold exactly. now rewrite reverse_app. Qed.

Lemma explicitVars_pairs (args : list string) (seen : list (string * string)) :
  explicitVars args (exactly seen)
  = (exactly (seen ++ leadingPairs args)%list, drop (length (leadingPairs args)) args).
Proof.
  revert seen. induction args as [|a args IH]; intros seen.
  - simpl. now rewrite app_nil_r.
  - rewrite explicitVars_cons. cbn [leadingPairs].
    destruct (Cut a "=") as [[name value]|].
    + rewrite <- exactly_snoc, IH. cbn [length drop]. now rewrite <- app_assoc.
    + cbn [length drop]. now rewrite app_nil_r.
Qed.

Lemma exactly_nonempty (nv : string * string) (pairs : list (string * string)) :
  size (exactly (nv :: pairs)) <> 0%nat.
Proof.
  intros H. apply map_size_empty_iff in H. unfold exactly in H.
  rewrite reverse_cons in H.
  apply (f_equal (fun m : gmap string string => map_to_list m)) in H.
  rewrite map_to_list_empty in H.
  destruct nv as [k v].
  assert ((list_to_map (reverse pairs ++ [(k, v)])%list : gmap string string) !! k <> None) as K.
  { rewrite <- not_elem_of_list_to_map. rewrite fmap_app. simpl.
    intros N. apply N. apply elem_of_app. right. now left. }
  apply K. apply map_to_list_empty_iff in H. rewrite H. apply lookup_empty.
Qed.

End ExplicitLemmas.

Lemma Cut_present (s : string) (sep : ascii) :
  hasByte sep s = true -> exists before after, Cut s sep = Some (before, after).
Proof.
  induction s as [|c s IH]; simpl; [discriminate|].
  destruct (Ascii.eqb c sep); simpl; [eauto|].
  intros H. destruct (IH H) as (b & a & ->). eauto.
Qed.

(** ** The collection of the variables: the claims *)

(** C7: when the command line starts with a [name=value] argument, the set
    to transmit holds exactly the leading [name=value] arguments, each split
    at its first [=], name and value as they were written (of two arguments
    with the same name the later one stands).  The result does not depend on
    the table, on [WENV], on the environment or on [winpath]; it is the
    usage error when no argument follows.  So [wenv FOO=/mnt/c/x cmd.exe]
    transmits exactly [FOO] with the value [/mnt/c/x]. *)
Theorem explicit_vars_verbatim {St : Type}
    (winpath : string -> M St (string * option error))
    (first : string) (args environ : list string) (wenv : string)
    (varopts : gmap string varopt) (st : St) :
  hasByte "=" first = true ->
  collect winpath (first :: args) environ wenv varopts st
    = Ok (match drop (length (leadingPairs (first :: args))) (first :: args) with
          | [] => Exit 2
          | (_ :: _) as target => Collected (exactly (leadingPairs (first :: args))) target
          end, st)
  /\ collect winpath ["FOO=/mnt/c/x"; "cmd.exe"] environ wenv varopts st
    = Ok (Collected {["FOO" := "/mnt/c/x"]} ["cmd.exe"], st).
Proof.
  assert (forall first args, hasByte "=" first = true ->
    collect winpath (first :: args) environ wenv varopts st
    = Ok (match drop (length (leadingPairs (first :: args))) (first :: args) with
          | [] => Exit 2
          | (_ :: _) as target => Collected (exactly (leadingPairs (first :: args))) target
          end, st)) as G.
  { clear first args. intros first args H. unfold collect.
    change (∅ : gmap string string) with (exactly []).
    rewrite explicitVars_pairs, app_nil_l.
    destruct (Cut_present first "=" H) as (name & value & C).
    cbn [leadingPairs]. rewrite C.
    destruct (drop _ _) as [|t target]; [reflexivity|].
    destruct (decide _) as [Z|_]; [|reflexivity].
    now apply exactly_nonempty in Z. }
  intros H. split; [now apply G|].
  rewrite G by reflexivity. reflexivity.
Qed.

Lemma explicit_vars_verbatim_witness :
  collect (fun p => ret (MntRoot.winpath p)) ["A=/mnt/c/x"; "B=1"; "cmd.exe"; "/c"; "set"]
    ["HOME=/home/u"; "PATH=/mnt/c/a"] "!A" MntRootTable.varopts tt
  = Ok (Collected (exactly [("A", "/mnt/c/x"); ("B", "1")]) ["cmd.exe"; "/c"; "set"], tt).
Proof.
  exact (proj1 (explicit_vars_verbatim (fun p => ret (MntRoot.winpath p))
                  "A=/mnt/c/x" ["B=1"; "cmd.exe"; "/c"; "set"]
                  ["HOME=/home/u"; "PATH=/mnt/c/a"] "!A" MntRootTable.varopts tt
                  eq_refl)).
Defined.

(** ** The policy table: lemmas and claim *)

Section TableLemmas.

Lemma overlay_snoc (l : list (string * varopt)) (name : string) (opt : varopt)
    (defaults : gmap string varopt) :
  overlay (l ++ [(name, opt)]) defaults = <[name := opt]> (overlay l defaults).
Proof. unfold overlay. rewrite reverse_app. simpl. now rewrite insert_union_l. Qed.

Lemma getvaroptsLoop_overlay (es : list string) (seen : list (string * varopt))
    (defaults : gmap string varopt) :
  let l := (fun e => ((modifier e).2, (modifier e).1))
             <$> List.filter (fun e => negb (String.eqb e "")) (TrimSpace <$> es) in
  named l = true ->
  getvaroptsLoop es (overlay seen defaults) = (overlay (seen ++ l) defaults, None).
Proof.
  revert seen. induction es as [|e es IH]; intros seen l N.
  - subst l. simpl. now rewrite app_nil_r.
  - subst l. simpl in N |- *.
    destruct (String.eqb (TrimSpace e) "") eqn:E; simpl in N |- *.
    + now apply IH.
    + destruct (modifier (TrimSpace e)) as [opt name] eqn:Mo. simpl in N |- *.
      apply andb_true_iff in N as [N1 N2].
      apply negb_true_iff in N1. rewrite N1.
      rewrite <- overlay_snoc, IH by exact N2.
      now rewrite <- app_assoc.
Qed.

Lemma overlay_last (l1 l2 : list (string * varopt)) (name : string) (opt : varopt)
    (defaults : gmap string varopt) :
  name ∉ l2.*1 ->
  overlay (l1 ++ (name, opt) :: l2) defaults !! name = Some opt.
Proof.
  intros N. unfold overlay.
  rewrite reverse_app, reverse_cons, <- app_assoc.
  apply lookup_union_Some_l. rewrite list_to_map_app.
  rewrite lookup_union_r.
  - simpl. apply lookup_insert_eq.
  - apply not_elem_of_list_to_map_1. rewrite fmap_reverse.
    intros H. apply N. now apply elem_of_reverse.
Qed.

Lemma overlay_default (l : list (string * varopt)) (name : string)
    (defaults : gmap string varopt) :
  name ∉ l.*1 -> overlay l defaults !! name = defaults !! name.
Proof.
  intros N. unfold overlay. apply lookup_union_r.
  apply not_elem_of_list_to_map_1. rewrite fmap_reverse.
  intros H. apply N. now apply elem_of_reverse.
Qed.

Lemma modifier_plain (c : ascii) (name : string) :
  c <> "!"%char -> c <> "@"%char -> c <> "#"%char -> c <> "$"%char ->
  modifier (String c name) = (varPass, String c name).
Proof.
  intros H1 H2 H3 H4.
  destruct c as [[] [] [] [] [] [] [] []]; try reflexivity; congruence.
Qed.

End TableLemmas.

(** C6: [getvaropts] splits the value of [WENV] on commas, trims each
    entry and skips the empty ones; a leading [!] gives [varIgnore], [@]
    [varConvert], [#] [varPath], and [$] or no modifier [varPass], the rest
    of the entry being the name.  When every entry names a variable the
    table returned is the defaults overlaid with the entries: the last entry
    of a name stands, over the earlier ones and over the default, and the
    other names keep their default.  So [!FOO, @BAR, #BAZ, $PATH] gives
    [FOO] ignored, [BAR] converted, [BAZ] a path list and [PATH] passed,
    whereas the default of [PATH] is [varPath], in both revisions. *)
Theorem getvaropts_overlay (wenv : string) (defaults : gmap string varopt) :
  named (overrides wenv) = true ->
  getvaropts wenv defaults = (overlay (overrides wenv) defaults, None)
  /\ (forall l1 l2 name opt, overrides wenv = (l1 ++ (name, opt) :: l2)%list ->
        name ∉ l2.*1 -> (getvaropts wenv defaults).1 !! name = Some opt)
  /\ (forall name, name ∉ (overrides wenv).*1 ->
        (getvaropts wenv defaults).1 !! name = defaults !! name)
  /\ (forall name, modifier (String "!" name) = (varIgnore, name)
                   /\ modifier (String "@" name) = (varConvert, name)
                   /\ modifier (String "#" name) = (varPath, name)
                   /\ modifier (String "$" name) = (varPass, name))
  /\ (forall c name, c <> "!"%char -> c <> "@"%char -> c <> "#"%char -> c <> "$"%char ->
        modifier (String c name) = (varPass, String c name))
  /\ (forall defaults',
        defaults' = MntRootTable.varopts \/ defaults' = WslConfTable.varopts ->
        let table := (getvaropts "!FOO, @BAR, #BAZ, $PATH" defaults').1 in
        defaults' !! "PATH" = Some varPath
        /\ table !! "FOO" = Some varIgnore /\ table !! "BAR" = Some varConvert
        /\ table !! "BAZ" = Some varPath /\ table !! "PATH" = Some varPass).
Proof.
  intros N.
  assert (getvaropts wenv defaults = (overlay (overrides wenv) defaults, None)) as G.
  { unfold getvaropts. destruct (String.eqb wenv "") eqn:E.
    - apply String.eqb_eq in E. subst wenv. unfold overlay. simpl.
      now rewrite (left_id ∅ (∪)).
    - assert (defaults = overlay [] defaults) as D
        by (unfold overlay; simpl; now rewrite (left_id ∅ (∪))).
      rewrite D at 1. now rewrite getvaroptsLoop_overlay. }
  split; [exact G|]. rewrite G. simpl.
  split; [intros l1 l2 name opt -> H; now apply overlay_last|].
  split; [intros name H; now apply overlay_default|].
  split; [intros name; repeat split|].
  split; [apply modifier_plain|].
  intros defaults' [-> | ->]; vm_compute; repeat split.
Qed.

Lemma getvaropts_overlay_witness :
  getvaropts "!FOO, @BAR, #BAZ, $PATH" WslConfTable.varopts
  = (overlay (overrides "!FOO, @BAR, #BAZ, $PATH") WslConfTable.varopts, None).
Proof.
  apply (getvaropts_overlay "!FOO, @BAR, #BAZ, $PATH" WslConfTable.varopts).
  reflexivity.
Defined.

(** ** The call of [syscall.Exec]: lemmas and claim *)

Section ExecLemmas.

Variable Exec : nat -> execResult.

(** While [ENOMEM] is returned the loop goes on to the next call, up to the
    call made with the counter at 10. *)
Lemma execRetry_ENOMEM (fuel i : nat) :
  Exec i = Failed (Errno ENOMEM) -> (i < 10)%nat ->
  execRetry Exec (S fuel) i = execRetry Exec fuel (S i).
Proof.
  intros E L. simpl. rewrite E.
  apply Nat.ltb_lt in L. now rewrite L.
Qed.

Lemma execRetry_skip (k fuel i : nat) :
  (i + k <= 10)%nat ->
  (forall j, (i <= j < i + k)%nat -> Exec j = Failed (Errno ENOMEM)) ->
  execRetry Exec (k + fuel) i = execRetry Exec fuel (i + k).
Proof.
  revert i. induction k as [|k IH]; intros i L H.
  - now rewrite Nat.add_0_r.
  - change (S k + fuel)%nat with (S (k + fuel)).
    rewrite execRetry_ENOMEM by (try apply H; lia).
    rewrite IH by (try (intros j Hj; apply H); lia).
    f_equal. lia.
Qed.

(** The loop ends within the eleven calls that the counter allows: the
    fuel that is left over changes nothing. *)
Lemma execRetry_total (fuel i : nat) :
  (i <= 10)%nat -> (11 - i <= fuel)%nat ->
  exists r, execRetry Exec fuel i = Some r
            /\ execRetry Exec (11 - i) i = Some r.
Proof.
  revert i. induction fuel as [|fuel IH]; intros i L F; [lia|].
  replace (11 - i)%nat with (S (10 - i)) by lia.
  simpl. destruct (Exec i) as [|[errno|]]; eauto.
  destruct ((errno =? ENOMEM)%Z && (i <? 10)%nat) eqn:C; eauto.
  apply andb_true_iff in C as [_ C]. apply Nat.ltb_lt in C.
  replace (10 - i)%nat with (11 - S i)%nat by lia.
  apply IH; lia.
Qed.

End ExecLemmas.

(** C4, as it is written, fails on revision [WslConf], which calls
    [syscall.Exec] once: the first [ENOMEM] ends the launcher. *)
Lemma exec_once_no_retry :
  ~ retryPolicy (fun Exec => Some (execOnce Exec)).
Proof.
  intros [H _].
  specialize (H (fun _ => Failed (Errno ENOMEM)) (fun _ => eq_refl)).
  discriminate H.
Qed.

(** C4, amended: in the revision that has the retry loop, [syscall.Exec]
    failing with [ENOMEM] is called again, up to 10 times after the first
    call; the eleventh [ENOMEM] makes [wenv] return 1, any other failure
    makes it return 1 at once, without another call, and the loop always
    ends within these eleven calls.  In the other revision [syscall.Exec] is
    called once and every failure, [ENOMEM] included, makes [wenv] return
    1. *)
Theorem exec_retry_bound (fuel : nat) :
  (11 <= fuel)%nat ->
  retryPolicy (fun Exec => execRetry Exec fuel 0)
  /\ (forall Exec, exists r, execRetry Exec fuel 0 = Some r)
  /\ (forall Exec err, Exec 0%nat = Failed err -> execOnce Exec = Returned 1 1)
  /\ (forall Exec, Exec 0%nat = Replaced -> execOnce Exec = ImageReplaced 1).
Proof.
  intros F.
  assert (forall Exec k, (k <= 10)%nat ->
            (forall i, (i < k)%nat -> Exec i = Failed (Errno ENOMEM)) ->
            execRetry Exec fuel 0 = execRetry Exec (fuel - k) k) as Skip.
  { intros Exec k L H. replace fuel with (k + (fuel - k))%nat at 1 by lia.
    rewrite execRetry_skip; [reflexivity | lia |]. intros j Hj. apply H. lia. }
  split; [split; [|split]|split; [|split]].
  - intros Exec H. rewrite (Skip Exec 10%nat) by auto.
    replace (fuel - 10)%nat with (S (fuel - 11)) by lia.
    simpl. now rewrite H.
  - intros Exec k err L H E N. rewrite (Skip Exec k) by auto.
    replace (fuel - k)%nat with (S (fuel - k - 1)) by lia.
    simpl. rewrite E. destruct err as [errno|]; [|reflexivity].
    destruct (errno =? ENOMEM)%Z eqn:C; [|reflexivity].
    apply Z.eqb_eq in C. congruence.
  - intros Exec k L H E. rewrite (Skip Exec k) by auto.
    replace (fuel - k)%nat with (S (fuel - k - 1)) by lia.
    simpl. now rewrite E.
  - intros Exec. destruct (execRetry_total Exec fuel 0) as (r & E & _); [lia..|].
    eauto.
  - intros Exec err E. unfold execOnce. now rewrite E.
  - intros Exec E. unfold execOnce. now rewrite E.
Qed.

Lemma exec_retry_bound_witness :
  execRetry (fun i => if (i <? 3)%nat then Failed (Errno ENOMEM) else Failed (Errno 13))
    11 0 = Some (Returned 1 4).
Proof.
  apply (proj1 (proj2 (proj1 (exec_retry_bound 11 (le_n 11))))
           (fun i => if (i <? 3)%nat then Failed (Errno ENOMEM) else Failed (Errno 13))
           3%nat (Errno 13)).
  - lia.
  - intros i H. apply Nat.ltb_lt in H. now rewrite H.
  - reflexivity.
  - discriminate.
Defined.

(** ** The discovery of the mount root *)

Section RootLemmas.

Lemma Split_absent (s : string) (sep : ascii) :
  hasByte sep s = false -> Split s sep = [s].
Proof.
  induction s as [|c s IH]; simpl; [reflexivity|].
  intros H. apply orb_false_iff in H as [H1 H2].
  now rewrite H1, (IH H2).
Qed.

Lemma Split_app (before after : string) (sep : ascii) :
  hasByte sep before = false ->
  Split (before +:+ String sep after) sep = before :: Split after sep.
Proof.
  induction before as [|c before IH]; intros H.
  - rewrite append_nil_l. simpl. now rewrite Ascii.eqb_refl.
  - simpl in H. apply orb_false_iff in H as [H1 H2].
    rewrite append_cons. simpl. now rewrite H1, (IH H2).
Qed.

(** The lines without [root] are skipped, and the first line with [root]
    decides: the lines after it are not read. *)
Lemma scanLines_first (skipped : list string) (line : string) (rest : list string) :
  (forall l, l ∈ skipped -> Contains l "root" = false) ->
  Contains line "root" = true ->
  WslConf.scanLines (skipped ++ line :: rest) = WslConf.scanLines [line].
Proof.
  intros H C. induction skipped as [|l skipped IH].
  - simpl. now rewrite C.
  - simpl. rewrite (H l) by now left. simpl. apply IH.
    intros l' Hl'. apply H. now right.
Qed.

(** A file without [root] in any line gives the default. *)
Lemma scanLines_no_root (lines : list string) :
  (forall l, l ∈ lines -> Contains l "root" = false) ->
  WslConf.scanLines lines = Ok WslConf.defaultRoot.
Proof.
  intros H. induction lines as [|l lines IH]; [reflexivity|].
  simpl. rewrite (H l) by now left. simpl. apply IH.
  intros l' Hl'. apply H. now right.
Qed.

(** A line [key=value] with [root] in it and a value that is neither empty
    nor quoted sets the mount root to the trimmed value. *)
Lemma scanLines_value (key value : string) (c : ascii) (s : string) :
  Contains (key +:+ String "=" value) "root" = true ->
  hasByte "=" key = false -> hasByte "=" value = false ->
  TrimSpace value = String c s -> c <> dquote ->
  WslConf.scanLines [key +:+ String "=" value] = Ok (String c s).
Proof.
  intros C K V T Q. simpl. rewrite C. simpl.
  rewrite (Split_app key value "=" K), (Split_absent value "=" V), T.
  apply Ascii.eqb_neq in Q. now rewrite Q.
Qed.

(** A line with [root] and an empty value makes [getWSLRoot] panic. *)
Lemma scanLines_empty_value (key value : string) :
  Contains (key +:+ String "=" value) "root" = true ->
  hasByte "=" key = false -> hasByte "=" value = false ->
  TrimSpace value = "" ->
  WslConf.scanLines [key +:+ String "=" value] = Panic.
Proof.
  intros C K V T. simpl. rewrite C. simpl.
  now rewrite (Split_app key value "=" K), (Split_absent value "=" V), T.
Qed.

End RootLemmas.

(** C5: [getWSLRoot] does not always yield the default on a malformed file.
    A line with [root] and an empty value, or with a value that is a lone
    double quote, makes it panic, and with it the first conversion of a
    path; an absent file, and a line with [root] that has no [=] or several,
    do yield the default. *)
Theorem getWSLRoot_empty_value_panics :
  WslConf.getWSLRoot (Some "root=") = Panic
  /\ WslConf.getWSLRoot (Some ("[automount]" +:+ String "010" ("root = " +:+ String "010" "")))
     = Panic
  /\ WslConf.getWSLRoot (Some ("root = " +:+ String dquote "")) = Panic
  /\ WslConf.winpath (Some "root=") "/mnt/c/Users" "" = Panic
  /\ WslConf.getWSLRoot None = Ok "/mnt/"
  /\ WslConf.getWSLRoot (Some "# the mount root") = Ok "/mnt/"
  /\ WslConf.getWSLRoot (Some "root = a = b") = Ok "/mnt/"
  /\ WslConf.getWSLRoot (Some ("root = " +:+ String dquote ("/win/" +:+ String dquote "")))
     = Ok "/win/".
Proof. repeat split. Qed.

(** ** The exit code of the helper *)

(** C8: the helper starts the target with its own standard input, output
    and error; when the start fails it exits with code 126; when the target
    has run it exits with the exit code of the target, whatever the size of
    [int]; when the wait fails with an error that is not an exit status it
    exits with code 126.  (The code leaves the exit code at 0 for an
    [*exec.ExitError] whose [Sys()] is not a [syscall.WaitStatus]; on
    Windows, for which the helper is built, it always is one.) *)
Theorem helper_exit_code (intSize : Z) (sys : Helper.system) (path : string)
    (args : list string) :
  intSize = 32%Z \/ intSize = 64%Z ->
  let cmd := Helper.command path args in
  (Helper.Path cmd = path /\ Helper.Args cmd = args
   /\ Helper.Stdin cmd = Some Helper.os_Stdin
   /\ Helper.Stdout cmd = Some Helper.os_Stdout
   /\ Helper.Stderr cmd = Some Helper.os_Stderr)
  /\ (Helper.Start sys cmd = false ->
      Helper.runTarget intSize sys (path :: args) = Ok 126%Z)
  /\ (forall code, (0 <= code < 2 ^ 32)%Z ->
      Helper.Start sys cmd = true -> Helper.Wait sys cmd = Helper.waitExited code ->
      Helper.runTarget intSize sys (path :: args) = Ok code)
  /\ (Helper.Start sys cmd = true -> Helper.Wait sys cmd = Some Helper.OtherError ->
      Helper.runTarget intSize sys (path :: args) = Ok 126%Z).
Proof.
  intros I cmd. split; [repeat split|].
  split; [|split].
  - intros S. unfold Helper.runTarget. fold cmd. now rewrite S.
  - intros code C S W. unfold Helper.runTarget. fold cmd. rewrite S, W. simpl.
    unfold Helper.waitExited. destruct (code =? 0)%Z eqn:Z0.
    + apply Z.eqb_eq in Z0. now subst code.
    + f_equal. unfold Helper.ExitStatus, Helper.toInt, Helper.os_Exit.
      destruct I as [-> | ->].
      * rewrite (Z.mod_small code (2 ^ 32)) by lia.
        destruct (code <? 2 ^ (32 - 1))%Z; [apply Z.mod_small; lia|].
        replace (code - 2 ^ 32)%Z with (code + (-1) * 2 ^ 32)%Z by lia.
        rewrite Z_mod_plus_full. apply Z.mod_small; lia.
      * rewrite (Z.mod_small code (2 ^ 64)) by lia.
        assert ((code <? 2 ^ (64 - 1))%Z = true) as -> by (apply Z.ltb_lt; lia).
        apply Z.mod_small; lia.
  - intros S W. unfold Helper.runTarget. fold cmd. now rewrite S, W.
Qed.

Lemma helper_exit_code_witness :
  Helper.runTarget 64
    {| Helper.Start := fun _ => true; Helper.Wait := fun _ => Helper.waitExited 3 |}
    ["C:\Windows\system32\cmd.exe"; "cmd.exe"; "/c"; "exit 3"] = Ok 3%Z.
Proof.
  apply (proj1 (proj2 (proj2 (helper_exit_code 64
           {| Helper.Start := fun _ => true; Helper.Wait := fun _ => Helper.waitExited 3 |}
           "C:\Windows\system32\cmd.exe" ["cmd.exe"; "/c"; "exit 3"]
           (or_intror eq_refl)))) 3%Z).
  - lia.
  - reflexivity.
  - reflexivity.
Defined.

(** ** More on the path translation *)

Section MorePathLemmas.

Lemma hasByte_head (c : ascii) (s : string) :
  hasByte c s = false -> HasPrefix s (String c "") = false.
Proof.
  destruct s as [|d s]; [reflexivity|]. simpl.
  intros H. apply orb_false_iff in H as [H _]. now rewrite H.
Qed.

(** The two shapes of the result of [winpath], whatever the drive pattern
    did to the path. *)
Lemma convert_shape (q : string) :
  let r := if HasPrefix (ReplaceAll q "/" "\") "\" then unconvertible
           else (ReplaceAll q "/" "\", None) in
  (r.2 = None -> hasByte "/" r.1 = false /\ HasPrefix r.1 "\" = false)
  /\ (r.2 <> None -> r = unconvertible).
Proof.
  cbv zeta. destruct (HasPrefix (ReplaceAll q "/" "\") "\") eqn:E; simpl.
  - split; [discriminate | reflexivity].
  - split; [|congruence]. intros _. split; [|exact E].
    apply hasByte_ReplaceAll. discriminate.
Qed.

(** A string without [/] that does not start with [\] is converted to
    itself, in both revisions. *)
Lemma winpath_fixed (root w : string) :
  hasByte "/" w = false -> HasPrefix w "\" = false ->
  MntRoot.winpath w = (w, None)
  /\ (HasPrefix root "/" = true -> WslConf.winpathAt root w = (w, None)).
Proof.
  intros S B.
  assert (forall r, HasPrefix r "/" = true -> findDrive r w = None) as F.
  { intros r R. unfold findDrive.
    destruct r as [|c r]; [discriminate|]. simpl in R.
    destruct w as [|d w]; [reflexivity|]. simpl in S |- *.
    apply orb_false_iff in S as [S _].
    destruct (Ascii.eqb c "/") eqn:C; [|discriminate].
    apply Ascii.eqb_eq in C. subst c. now rewrite S. }
  split.
  - unfold MntRoot.winpath, MntRoot.findMnt.
    rewrite !F by reflexivity. rewrite (ReplaceAll_absent w "/" "\" S). now rewrite B.
  - intros R. unfold WslConf.winpathAt.
    rewrite (F root R), (ReplaceAll_absent w "/" "\" S). now rewrite B.
Qed.

(** Replacing [\] by [/] and then [/] by [\] is replacing [/] by [\]. *)
Lemma ReplaceAll_there_and_back (s : string) (a b : ascii) :
  ReplaceAll (ReplaceAll s b a) a b = ReplaceAll s a b.
Proof.
  induction s as [|c s IH]; [reflexivity|]. simpl. rewrite IH. f_equal.
  destruct (Ascii.eqb c b) eqn:B.
  - rewrite Ascii.eqb_refl. apply Ascii.eqb_eq in B. subst c.
    now destruct (Ascii.eqb b a).
  - reflexivity.
Qed.

Lemma ReplaceAll_append (s1 s2 : string) (a b : ascii) :
  ReplaceAll (s1 +:+ s2) a b = ReplaceAll s1 a b +:+ ReplaceAll s2 a b.
Proof.
  induction s1 as [|c s1 IH]; [reflexivity|].
  rewrite append_cons. simpl. now rewrite IH, append_cons.
Qed.

Lemma hasByte_append (c : ascii) (s1 s2 : string) :
  hasByte c (s1 +:+ s2) = hasByte c s1 || hasByte c s2.
Proof. apply hasByte_app. Qed.

End MorePathLemmas.

(** X1: a path that [winpath] converts has no [/] left and does not start
    with [\]; a path that it does not convert is returned as the empty
    string with the error.  In both revisions, for every mount root that
    stands for itself in a pattern. *)
Theorem winpath_result_shape (root path : string) :
  ((MntRoot.winpath path).2 = None ->
     hasByte "/" (MntRoot.winpath path).1 = false
     /\ HasPrefix (MntRoot.winpath path).1 "\" = false)
  /\ ((MntRoot.winpath path).2 <> None -> MntRoot.winpath path = unconvertible)
  /\ (plain root = true ->
      ((WslConf.winpathAt root path).2 = None ->
         hasByte "/" (WslConf.winpathAt root path).1 = false
         /\ HasPrefix (WslConf.winpathAt root path).1 "\" = false)
      /\ ((WslConf.winpathAt root path).2 <> None ->
         WslConf.winpathAt root path = unconvertible)).
Proof.
  unfold MntRoot.winpath, WslConf.winpathAt.
  set (q1 := match MntRoot.findMnt path with Some _ => _ | None => _ end).
  set (q2 := match findDrive root path with Some _ => _ | None => _ end).
  destruct (convert_shape q1) as [A1 A2], (convert_shape q2) as [B1 B2].
  split; [exact A1|]. split; [exact A2|]. intros _. split; [exact B1 | exact B2].
Qed.

Lemma winpath_result_shape_witness :
  hasByte "/" (WslConf.winpathAt "/mnt/" "/mnt/c/a/b").1 = false
  /\ HasPrefix (WslConf.winpathAt "/mnt/" "/mnt/c/a/b").1 "\" = false.
Proof.
  apply (proj1 (proj2 (proj2 (winpath_result_shape "/mnt/" "/mnt/c/a/b")) eq_refl)).
  reflexivity.
Defined.

(** X2: [winpath] leaves a path that it has produced as it is: converting
    twice is converting once.  In revision [WslConf] this holds for a mount
    root that starts with [/] and stands for itself in a pattern. *)
Theorem winpath_idempotent (root v w : string) :
  (MntRoot.winpath v = (w, None) -> MntRoot.winpath w = (w, None))
  /\ (plain root = true -> HasPrefix root "/" = true ->
      WslConf.winpathAt root v = (w, None) ->
      WslConf.winpathAt root w = (w, None)).
Proof.
  split.
  - intros H. unfold MntRoot.winpath in H.
    set (q := match MntRoot.findMnt v with Some _ => _ | None => _ end) in H.
    cbv zeta in H.
    destruct (HasPrefix (ReplaceAll q "/" "\") "\") eqn:B; [discriminate H|].
    inversion H. subst w.
    apply (winpath_fixed "/"); [apply hasByte_ReplaceAll; discriminate | exact B].
  - intros _ R H. unfold WslConf.winpathAt in H.
    set (q := match findDrive root v with Some _ => _ | None => _ end) in H.
    cbv zeta in H.
    destruct (HasPrefix (ReplaceAll q "/" "\") "\") eqn:B; [discriminate H|].
    inversion H. subst w.
    apply (winpath_fixed root); [apply hasByte_ReplaceAll; discriminate | exact B | exact R].
Qed.

Lemma winpath_idempotent_witness :
  WslConf.winpathAt "/mnt/" "C:\Users\u" = ("C:\Users\u", None).
Proof.
  apply (proj2 (winpath_idempotent "/mnt/" "/mnt/c/Users/u" "C:\Users\u")
           eq_refl eq_refl).
  reflexivity.
Defined.

Section DriveLemmas.

Lemma wslpathAt_drive (root : string) (c : ascii) (rest : string) :
  letter c = true ->
  WslConf.wslpathAt root (String c (String ":" rest))
  = root +:+ String (lowerByte c) (ReplaceAll rest "\" "/").
Proof.
  intros L. destruct (lowerByte_letter c L) as (_ & _ & _ & B).
  unfold WslConf.wslpathAt. simpl. rewrite B, L. simpl.
  unfold ToLower. simpl mapBytes.
  now rewrite append_assoc, append_cons, append_nil_l.
Qed.

Lemma winpathAt_under_root (root : string) (c : ascii) (rest : string) :
  lower c = true -> sepOrEnd rest = true ->
  WslConf.winpathAt root (root +:+ String c rest)
  = (String (upperByte c) (String ":" (ReplaceAll rest "/" "\")), None).
Proof.
  intros L S. apply (proj1 (winpathAt_rule root _)).
  split; [reflexivity|]. split; [exact L|]. now apply sepOrEnd_spec.
Qed.

End DriveLemmas.

(** X3: a Windows path with a drive letter, the rest of which is empty or
    starts with a separator, goes through [wslpath] and comes back through
    [winpath] with its drive letter in upper case and every [/] replaced by
    [\], also when something is appended to the WSL path in between, as the
    launcher does for the name of the handoff file.  In both revisions, for
    every mount root that stands for itself in a pattern. *)
Theorem winpath_of_wslpath (root : string) (c : ascii) (rest suffix : string) :
  letter c = true ->
  sepOrEnd (ReplaceAll rest "\" "/" +:+ suffix) = true ->
  MntRoot.winpath (MntRoot.wslpath (String c (String ":" rest)) +:+ suffix)
  = (String (upperByte (lowerByte c))
       (String ":" (ReplaceAll rest "/" "\" +:+ ReplaceAll suffix "/" "\")), None)
  /\ (plain root = true ->
      WslConf.winpathAt root
        (WslConf.wslpathAt root (String c (String ":" rest)) +:+ suffix)
      = (String (upperByte (lowerByte c))
           (String ":" (ReplaceAll rest "/" "\" +:+ ReplaceAll suffix "/" "\")), None)).
Proof.
  intros L S. destruct (lowerByte_letter c L) as (Lo & _).
  assert (forall r, WslConf.winpathAt r (WslConf.wslpathAt r (String c (String ":" rest)) +:+ suffix)
    = (String (upperByte (lowerByte c))
         (String ":" (ReplaceAll rest "/" "\" +:+ ReplaceAll suffix "/" "\")), None)) as G.
  { intros r. rewrite (wslpathAt_drive r c rest L).
    rewrite append_assoc, append_cons.
    rewrite (winpathAt_under_root r _ _ Lo S).
    now rewrite ReplaceAll_append, ReplaceAll_there_and_back. }
  split; [|intros _; apply G].
  rewrite MntRoot_wslpath_eq, (wslpathAt_drive "/mnt/" c rest L).
  rewrite append_assoc, append_cons.
  rewrite (proj1 (MntRoot_winpath_rule _) (lowerByte c)
             (ReplaceAll rest "\" "/" +:+ suffix)).
  - now rewrite ReplaceAll_append, ReplaceAll_there_and_back.
  - left. split; [reflexivity|]. split; [exact Lo|]. now apply sepOrEnd_spec.
Qed.

Lemma winpath_of_wslpath_witness :
  WslConf.winpathAt "/win/" (WslConf.wslpathAt "/win/" "c:\Users\u\Temp" +:+ "/wenv123")
  = ("C:\Users\u\Temp\wenv123", None).
Proof.
  apply (proj2 (winpath_of_wslpath "/win/" "c" "\Users\u\Temp" "/wenv123"
                  eq_refl eq_refl) eq_refl).
Defined.

Lemma plain_no_backslash (root : string) :
  plain root = true -> hasByte "\" root = false.
Proof.
  induction root as [|c root IH]; [reflexivity|]. simpl. intros H.
  apply andb_true_iff in H as [H P]. apply andb_true_iff in H as [_ H].
  rewrite (IH P), orb_false_r.
  destruct (Ascii.eqb c "\") eqn:E; [|reflexivity].
  apply Ascii.eqb_eq in E. subst c. discriminate H.
Qed.

(** X4: the result of [wslpath] has no [\], in revision [MntRoot] and, for a
    mount root that stands for itself in a pattern and in a replacement, in
    revision [WslConf]. *)
Theorem wslpath_no_backslash (root p : string) :
  hasByte "\" (MntRoot.wslpath p) = false
  /\ (plain root = true -> hasByte "\" (WslConf.wslpathAt root p) = false).
Proof.
  assert (forall r, hasByte "\" r = false -> hasByte "\" (WslConf.wslpathAt r p) = false) as G.
  { intros r R.
    destruct (wslpathAt_cases r p) as [[_ ->]|(c & rest & _ & L & E & ->)].
    - apply hasByte_ReplaceAll. discriminate.
    - destruct (lowerByte_letter c L) as (_ & B & _).
      rewrite hasByte_app, R. simpl. rewrite B, E. simpl.
      apply hasByte_ReplaceAll. discriminate. }
  split; [|intros P; apply G; now apply plain_no_backslash].
  rewrite MntRoot_wslpath_eq. now apply G.
Qed.

Lemma wslpath_no_backslash_witness :
  hasByte "\" (WslConf.wslpathAt "/mnt/" "D:\foo\bar") = false.
Proof. apply (proj2 (wslpath_no_backslash "/mnt/" "D:\foo\bar")). reflexivity. Defined.

(** ** More on the discovery of the mount root *)

Section MoreRootLemmas.

Lemma HasPrefix_elim (s p : string) :
  HasPrefix s p = true -> exists r, s = p +:+ r.
Proof.
  revert s. induction p as [|c p IH]; intros s H; [now exists s|].
  destruct s as [|d s]; [discriminate|]. simpl in H.
  apply andb_true_iff in H as [E H]. apply Ascii.eqb_eq in E. subst d.
  destruct (IH s H) as [r ->]. now exists r.
Qed.

Lemma HasPrefix_intro (p r : string) : HasPrefix (p +:+ r) p = true.
Proof.
  induction p as [|c p IH]; [reflexivity|].
  rewrite append_cons. simpl. now rewrite Ascii.eqb_refl.
Qed.

Lemma Contains_elim (s sub : string) :
  Contains s sub = true -> exists pre post, s = pre +:+ sub +:+ post.
Proof.
  induction s as [|c s IH]; simpl; intros H.
  - rewrite orb_false_r in H. apply HasPrefix_elim in H as [r ->]. now exists "", r.
  - apply orb_true_iff in H as [H|H].
    + apply HasPrefix_elim in H as [r ->]. now exists "", r.
    + destruct (IH H) as (pre & post & ->). now exists (String c pre), post.
Qed.

Lemma Contains_intro (pre sub post : string) :
  Contains (pre +:+ sub +:+ post) sub = true.
Proof.
  induction pre as [|c pre IH].
  - rewrite append_nil_l. destruct (sub +:+ post) eqn:E; simpl;
      rewrite <- E, HasPrefix_intro; reflexivity.
  - rewrite append_cons. simpl. rewrite IH. apply orb_true_r.
Qed.

(** The fields of [Split] are pieces of the string, without separator, and
    the first one starts the string. *)
Lemma Split_pieces (s : string) (sep : ascii) :
  exists f fs, Split s sep = f :: fs /\ hasByte sep f = false
    /\ (exists post, s = f +:+ post)
    /\ forall l, l ∈ fs ->
         (exists pre post, s = pre +:+ l +:+ post) /\ hasByte sep l = false.
Proof.
  induction s as [|c s (f & fs & S & N & (post & P) & R)].
  - exists "", []. split; [reflexivity|]. split; [reflexivity|].
    split; [now exists ""|]. intros l Hl. inversion Hl.
  - simpl. rewrite S. destruct (Ascii.eqb c sep) eqn:E.
    + exists "", (f :: fs). split; [reflexivity|]. split; [reflexivity|].
      split; [now exists (String c s)|].
      intros l Hl. apply elem_of_cons in Hl as [->|Hl].
      * split; [|exact N]. exists (String c ""), post. now rewrite P at 1.
      * destruct (R l Hl) as [(pre & post' & Q) N']. split; [|exact N'].
        exists (String c pre), post'. now rewrite Q at 1.
    + exists (String c f), fs. split; [reflexivity|].
      split; [simpl; now rewrite E, N|].
      split; [exists post; now rewrite P at 1|].
      intros l Hl. destruct (R l Hl) as [(pre & post' & Q) N']. split; [|exact N'].
      exists (String c pre), post'. now rewrite Q at 1.
Qed.

Lemma Split_field (s : string) (sep : ascii) (l : string) :
  l ∈ Split s sep ->
  (exists pre post, s = pre +:+ l +:+ post) /\ hasByte sep l = false.
Proof.
  destruct (Split_pieces s sep) as (f & fs & -> & N & (post & P) & R).
  intros H. apply elem_of_cons in H as [->|H]; [|now apply R].
  split; [|exact N]. now exists "", post.
Qed.

Lemma Contains_field (b : string) (sep : ascii) (l sub : string) :
  l ∈ Split b sep -> Contains l sub = true -> Contains b sub = true.
Proof.
  intros H C. destruct (Split_field b sep l H) as [(pre & post & ->) _].
  destruct (Contains_elim l sub C) as (p1 & p2 & ->).
  rewrite !append_assoc, <- (append_assoc pre p1). apply Contains_intro.
Qed.

Lemma length_Split (s : string) (sep : ascii) :
  length (Split s sep) = S (countByte sep s).
Proof.
  induction s as [|c s IH]; [reflexivity|]. simpl.
  destruct (Ascii.eqb c sep); simpl; [now rewrite IH|].
  destruct (Split s sep) as [|f fs]; simpl in *; [discriminate | exact IH].
Qed.

Lemma dropLast_snoc (r : string) (c : ascii) :
  WslConf.dropLast (r +:+ String c "") = r.
Proof.
  induction r as [|d r IH]; [reflexivity|].
  rewrite append_cons. simpl.
  destruct (r +:+ String c "") eqn:E; [now destruct r|].
  now rewrite IH.
Qed.

Lemma getWSLRoot_first (b line : string) :
  firstRootLine b line -> WslConf.getWSLRoot (Some b) = WslConf.scanLines [line].
Proof.
  intros (skipped & rest & S & N & C). simpl. rewrite S.
  now apply scanLines_first.
Qed.

Lemma firstRootLine_one_line (b line : string) :
  firstRootLine b line -> Split line "010" = [line].
Proof.
  intros (skipped & rest & S & _). apply Split_absent.
  apply (Split_field b "010" line). rewrite S.
  apply elem_of_app. right. now left.
Qed.

End MoreRootLemmas.

(** X5: a configuration file that has [root] nowhere gives the default mount
    root. *)
Theorem getWSLRoot_without_root (b : string) :
  Contains b "root" = false -> WslConf.getWSLRoot (Some b) = Ok "/mnt/".
Proof.
  intros H. simpl. apply scanLines_no_root. intros l Hl.
  destruct (Contains l "root") eqn:C; [|reflexivity].
  now rewrite (Contains_field b "010" l "root" Hl C) in H.
Qed.

Lemma getWSLRoot_without_root_witness :
  WslConf.getWSLRoot (Some ("[network]" +:+ String "010" "generateHosts = false"))
  = Ok "/mnt/".
Proof. apply getWSLRoot_without_root. reflexivity. Defined.

(** X6: only the first line that contains [root] counts: the file gives what
    that line alone gives, whatever the lines after it, which are not read
    (a later line cannot set the root, and cannot make the discovery
    panic). *)
Theorem getWSLRoot_first_line (b line : string) :
  firstRootLine b line ->
  WslConf.getWSLRoot (Some b) = WslConf.getWSLRoot (Some line).
Proof.
  intros H. rewrite (getWSLRoot_first b line H).
  simpl. now rewrite (firstRootLine_one_line b line H).
Qed.

Lemma getWSLRoot_first_line_witness :
  WslConf.getWSLRoot
    (Some ("[automount]" +:+ String "010" ("root = /w/" +:+ String "010" "root =")))
  = WslConf.getWSLRoot (Some "root = /w/").
Proof.
  apply getWSLRoot_first_line.
  exists ["[automount]"], ["root ="]. split; [reflexivity|].
  split; [|reflexivity].
  intros l Hl. apply list_elem_of_singleton in Hl. now subst l.
Defined.

(** X7: when the first line that contains [root] has no [=], or more than
    one, the mount root is the default. *)
Theorem getWSLRoot_not_one_equals (b line : string) :
  firstRootLine b line -> countByte "=" line <> 1%nat ->
  WslConf.getWSLRoot (Some b) = Ok "/mnt/".
Proof.
  intros H N. rewrite (getWSLRoot_first b line H).
  destruct H as (_ & _ & _ & _ & C). simpl. rewrite C. simpl.
  pose proof (length_Split line "=") as L.
  destruct (Split line "=") as [|k [|v [|x l]]]; try reflexivity.
  simpl in L. congruence.
Qed.

Lemma getWSLRoot_not_one_equals_witness :
  WslConf.getWSLRoot (Some "options = metadata,root=/x") = Ok "/mnt/".
Proof.
  apply (getWSLRoot_not_one_equals _ "options = metadata,root=/x").
  - exists [], []. repeat split. intros l Hl. inversion Hl.
  - vm_compute. discriminate.
Defined.

(** X8: when the first line that contains [root] is [key=value] with a
    single [=], the mount root is the value with the white space around it
    removed; if that starts with a double quote, its first and its last byte
    are removed as well, whatever the last byte is.  The test is on the
    line, so the [root] may be in the value. *)
Theorem getWSLRoot_value (b key value : string) :
  firstRootLine b (key +:+ String "=" value) ->
  hasByte "=" key = false -> hasByte "=" value = false ->
  (forall c s, TrimSpace value = String c s -> c <> dquote ->
     WslConf.getWSLRoot (Some b) = Ok (TrimSpace value))
  /\ (forall r c, TrimSpace value = String dquote (r +:+ String c "") ->
     WslConf.getWSLRoot (Some b) = Ok r).
Proof.
  intros H K V. rewrite (getWSLRoot_first _ _ H).
  destruct H as (_ & _ & _ & _ & C).
  split.
  - intros c s T Q. rewrite T. now apply scanLines_value.
  - intros r c T. simpl. rewrite C. simpl.
    rewrite (Split_app key value "=" K), (Split_absent value "=" V), T.
    rewrite Ascii.eqb_refl.
    destruct (r +:+ String c "") eqn:E; [now destruct r|].
    rewrite <- E. now rewrite dropLast_snoc.
Qed.

Lemma getWSLRoot_value_witness :
  WslConf.getWSLRoot (Some ("[automount]" +:+ String "010" "root =  /windir/ "))
  = Ok (TrimSpace "  /windir/ ").
Proof.
  assert (firstRootLine ("[automount]" +:+ String "010" "root =  /windir/ ")
            ("root " +:+ String "=" "  /windir/ ")) as F.
  { exists ["[automount]"], []. split; [reflexivity|]. split; [|reflexivity].
    intros l Hl. apply list_elem_of_singleton in Hl. now subst l. }
  apply (proj1 (getWSLRoot_value _ "root " "  /windir/ " F eq_refl eq_refl)
           "/"%char "windir/"); [reflexivity | discriminate].
Defined.

(** X9: when the first line that contains [root] is [key=value] with a
    single [=], the discovery panics exactly when the value, with the white
    space around it removed, is empty or is a lone double quote. *)
Theorem getWSLRoot_panics_iff (b key value : string) :
  firstRootLine b (key +:+ String "=" value) ->
  hasByte "=" key = false -> hasByte "=" value = false ->
  WslConf.getWSLRoot (Some b) = Panic
  <-> TrimSpace value = "" \/ TrimSpace value = String dquote "".
Proof.
  intros H K V. rewrite (getWSLRoot_first _ _ H).
  destruct H as (_ & _ & _ & _ & C). simpl. rewrite C. simpl.
  rewrite (Split_app key value "=" K), (Split_absent value "=" V).
  destruct (TrimSpace value) as [|c [|d s]].
  - split; auto.
  - destruct (Ascii.eqb c dquote) eqn:E.
    + apply Ascii.eqb_eq in E. subst c. split; auto.
    + split; [discriminate|]. intros [F|F]; [discriminate|].
      inversion F. subst c. now rewrite Ascii.eqb_refl in E.
  - destruct (Ascii.eqb c dquote); split; try discriminate;
      intros [F|F]; discriminate.
Qed.

Lemma getWSLRoot_panics_iff_witness :
  WslConf.getWSLRoot (Some ("root = " +:+ String "009" "")) = Panic.
Proof.
  assert (firstRootLine ("root = " +:+ String "009" "")
            ("root " +:+ String "=" (" " +:+ String "009" ""))) as F.
  { exists [], []. split; [reflexivity|]. split; [|reflexivity].
    intros l Hl. inversion Hl. }
  apply (proj2 (getWSLRoot_panics_iff _ "root " (" " +:+ String "009" "")
                  F eq_refl eq_refl)).
  left. reflexivity.
Defined.

(** ** More on the policy table *)

Section MoreTableLemmas.

Let overridesOf (es : list string) : list (string * varopt) :=
  (fun e => ((modifier e).2, (modifier e).1))
    <$> List.filter (fun e => negb (String.eqb e "")) (TrimSpace <$> es).

Lemma overridesOf_cons (e : string) (es : list string) :
  overridesOf (e :: es)
  = if String.eqb (TrimSpace e) "" then overridesOf es
    else ((modifier (TrimSpace e)).2, (modifier (TrimSpace e)).1) :: overridesOf es.
Proof. unfold overridesOf. simpl. now destruct (String.eqb (TrimSpace e) ""). Qed.

Lemma getvaroptsLoop_error (es : list string) (seen : list (string * varopt))
    (defaults : gmap string varopt) :
  named (overridesOf es) = false ->
  exists l1 opt l2, overridesOf es = (l1 ++ ("", opt) :: l2)%list /\ named l1 = true
    /\ getvaroptsLoop es (overlay seen defaults)
       = (overlay (seen ++ l1) defaults, Some (errors_New "empty var name in WENV")).
Proof.
  revert seen. induction es as [|e es IH]; intros seen N; [discriminate N|].
  rewrite overridesOf_cons in N |- *. cbn [getvaroptsLoop].
  destruct (String.eqb (TrimSpace e) "") eqn:E.
  - now apply IH.
  - destruct (modifier (TrimSpace e)) as [opt name] eqn:Mo. cbn [fst snd] in N |- *.
    cbn [named forallb fst] in N.
    destruct (String.eqb name "") eqn:Nm; cbn [negb andb] in N.
    + apply String.eqb_eq in Nm. subst name.
      exists [], opt, (overridesOf es).
      split; [reflexivity|]. split; [reflexivity|]. now rewrite app_nil_r.
    + rewrite <- overlay_snoc.
      destruct (IH (seen ++ [(name, opt)])%list N) as (l1 & o & l2 & L & N1 & G).
      exists ((name, opt) :: l1), o, l2. rewrite L.
      split; [reflexivity|]. split; [cbn [named forallb fst]; now rewrite Nm|].
      rewrite G. now rewrite <- app_assoc.
Qed.

End MoreTableLemmas.

(** X10: [getvaropts] returns an error exactly when an entry of [WENV] has
    no name after its modifier; the table then holds the entries that come
    before that one, and the error is [empty var name in WENV]. *)
Theorem getvaropts_error (wenv : string) (defaults : gmap string varopt) :
  ((getvaropts wenv defaults).2 = None <-> named (overrides wenv) = true)
  /\ (named (overrides wenv) = false ->
      exists l1 opt l2, overrides wenv = (l1 ++ ("", opt) :: l2)%list
        /\ named l1 = true
        /\ getvaropts wenv defaults
           = (overlay l1 defaults, Some (errors_New "empty var name in WENV"))).
Proof.
  assert (defaults = overlay [] defaults) as D
    by (unfold overlay; simpl; now rewrite (left_id ∅ (∪))).
  assert (named (overrides wenv) = false ->
      exists l1 opt l2, overrides wenv = (l1 ++ ("", opt) :: l2)%list
        /\ named l1 = true
        /\ getvaropts wenv defaults
           = (overlay l1 defaults, Some (errors_New "empty var name in WENV"))) as E.
  { intros N. unfold getvaropts. destruct (String.eqb wenv "") eqn:W.
    - apply String.eqb_eq in W. subst wenv. discriminate N.
    - destruct (getvaroptsLoop_error (Split wenv ",") [] defaults N)
        as (l1 & opt & l2 & L & N1 & G).
      rewrite <- D in G. exists l1, opt, l2. auto. }
  split; [|exact E]. split.
  - intros H. destruct (named (overrides wenv)) eqn:N; [reflexivity|].
    destruct (E eq_refl) as (l1 & opt & l2 & _ & _ & G). rewrite G in H. discriminate H.
  - intros N. unfold getvaropts. destruct (String.eqb wenv "") eqn:W; [reflexivity|].
    rewrite D at 1. now rewrite getvaroptsLoop_overlay.
Qed.

Lemma getvaropts_error_witness :
  exists l1 opt l2, overrides "!FOO, @, BAR" = (l1 ++ ("", opt) :: l2)%list
    /\ named l1 = true
    /\ getvaropts "!FOO, @, BAR" WslConfTable.varopts
       = (overlay l1 WslConfTable.varopts, Some (errors_New "empty var name in WENV")).
Proof.
  apply (proj2 (getvaropts_error "!FOO, @, BAR" WslConfTable.varopts)).
  reflexivity.
Defined.

(** ** More on the collection of the variables *)

Section MoreCollectorLemmas.

Context {St : Type}.
Variable winpath : string -> M St (string * option error).

Lemma Cut_none (s : string) (sep : ascii) :
  hasByte sep s = false -> Cut s sep = None.
Proof.
  induction s as [|c s IH]; simpl; [reflexivity|].
  intros H. apply orb_false_iff in H as [H1 H2].
  now rewrite H1, (IH H2).
Qed.

Lemma Cut_none_inv (s : string) (sep : ascii) :
  Cut s sep = None -> hasByte sep s = false.
Proof.
  destruct (hasByte sep s) eqn:H; [|reflexivity].
  destruct (Cut_present s sep H) as (b & a & ->). discriminate.
Qed.

Lemma entryName_app (n v : string) :
  hasByte "=" n = false -> entryName (n +:+ String "=" v) = n.
Proof. intros H. unfold entryName. now rewrite (Cut_app n v "=" H). Qed.

(** What an entry can do to the set: nothing, or set its own name, which is
    then not an ignored one. *)
Lemma collectEntry_cases (T : gmap string varopt) (e : string)
    (vars vars1 : gmap string string) (st st1 : St) :
  collectEntry winpath T e vars st = Ok (vars1, st1) ->
  vars1 = vars
  \/ (exists w, vars1 = <[entryName e := w]> vars)
     /\ T !! entryName e <> Some varIgnore /\ hasByte "=" e = true.
Proof.
  unfold collectEntry, entryName. rewrite SplitN_2.
  destruct (Cut e "=") as [[n v]|] eqn:C.
  - assert (hasByte "=" e = true) as HB.
    { destruct (hasByte "=" e) eqn:H; [reflexivity|].
      rewrite (Cut_none e "=" H) in C. discriminate. }
    destruct (T !! n) as [[| | |]|] eqn:V; unfold bind, index1, ret; simpl.
    + intros H. inversion H. now left.
    + intros H. inversion H. right. split; [eauto|]. split; [congruence|exact HB].
    + destruct (winpath v st) as [[[w err] s2]|]; [|discriminate].
      simpl. destruct err; intros H; inversion H; [now left|].
      right. split; [eauto|]. split; [congruence|exact HB].
    + destruct (convertSegments winpath (Split v ":") [] st) as [[p s2]|]; [|discriminate].
      intros H. inversion H. right. split; [eauto|]. split; [congruence|exact HB].
    + intros H. inversion H. right. split; [eauto|]. split; [congruence|exact HB].
  - destruct (T !! e) as [[| | |]|] eqn:V; unfold bind, index1, panic, ret; simpl;
      try discriminate.
    intros H. inversion H. now left.
Qed.

Lemma collectEnviron_app (T : gmap string varopt) (l1 l2 : list string)
    (vars : gmap string string) (st : St) :
  collectEnviron winpath T (l1 ++ l2) vars st
  = match collectEnviron winpath T l1 vars st with
    | Ok (vars1, st1) => collectEnviron winpath T l2 vars1 st1
    | Panic => Panic
    end.
Proof.
  revert vars st. induction l1 as [|e l1 IH]; intros vars st; [reflexivity|].
  simpl. unfold bind.
  destruct (collectEntry winpath T e vars st) as [[v1 s1]|]; [apply IH|reflexivity].
Qed.

(** The loop leaves a name as it was when every entry of that name is
    ignored. *)
Lemma collectEnviron_untouched (T : gmap string varopt) (environ : list string)
    (vars vars' : gmap string string) (st st' : St) (n : string) :
  collectEnviron winpath T environ vars st = Ok (vars', st') ->
  (forall e, e ∈ environ -> entryName e = n -> T !! n = Some varIgnore) ->
  vars' !! n = vars !! n.
Proof.
  revert vars st. induction environ as [|e environ IH]; intros vars st H U.
  - simpl in H. inversion H. reflexivity.
  - simpl in H. unfold bind in H.
    destruct (collectEntry winpath T e vars st) as [[v1 s1]|] eqn:E; [|discriminate].
    rewrite (IH v1 s1 H) by (intros e' He'; apply U; now right).
    destruct (collectEntry_cases _ _ _ _ _ _ E) as [->|([w ->] & N & _)]; [reflexivity|].
    apply lookup_insert_ne. intros Q. apply N. rewrite Q.
    apply (U e); [now left|exact Q].
Qed.

(** The names of the set come from the set at the start or from the
    entries. *)
Lemma collectEnviron_names (T : gmap string varopt) (environ : list string)
    (vars vars' : gmap string string) (st st' : St) (n : string) :
  collectEnviron winpath T environ vars st = Ok (vars', st') ->
  vars' !! n <> None ->
  vars !! n <> None
  \/ exists e, e ∈ environ /\ entryName e = n /\ hasByte "=" e = true
               /\ T !! n <> Some varIgnore.
Proof.
  revert vars st. induction environ as [|e environ IH]; intros vars st H P.
  - simpl in H. inversion H. subst. now left.
  - simpl in H. unfold bind in H.
    destruct (collectEntry winpath T e vars st) as [[v1 s1]|] eqn:E; [|discriminate].
    destruct (IH v1 s1 H P) as [Q|(e' & He' & Q)].
    + destruct (collectEntry_cases _ _ _ _ _ _ E) as [->|([w ->] & N & B)]; [now left|].
      destruct (decide (entryName e = n)) as [<-|D].
      * right. exists e. split; [now left|]. auto.
      * left. now rewrite lookup_insert_ne in Q.
    + right. exists e'. split; [now right|exact Q].
Qed.

Lemma explicitVars_ambient (a : string) (args : list string) :
  hasByte "=" a = false -> explicitVars (a :: args) ∅ = (∅, a :: args).
Proof. intros H. rewrite explicitVars_cons. now rewrite (Cut_none a "=" H). Qed.

(** [wenv] without a leading [name=value] argument: the table is resolved
    and the environment collected from the empty set. *)
Lemma collect_ambient (a : string) (args environ : list string) (wenv : string)
    (T : gmap string varopt) (st : St) :
  hasByte "=" a = false ->
  collect winpath (a :: args) environ wenv T st
  = match (getvaropts wenv T).2 with
    | Some _ => Ok (Exit 1, st)
    | None =>
        match collectEnviron winpath (getvaropts wenv T).1 environ ∅ st with
        | Ok (vars, st') => Ok (Collected vars (a :: args), st')
        | Panic => Panic
        end
    end.
Proof.
  intros H. unfold collect. rewrite (explicitVars_ambient a args H).
  destruct (decide (size (∅ : gmap string string) = 0%nat)) as [_|N];
    [|now rewrite map_size_empty in N].
  destruct (getvaropts wenv T) as [T' [err|]]; [reflexivity|].
  simpl. unfold bind, ret.
  now destruct (collectEnviron winpath T' environ ∅ st) as [[v s]|].
Qed.

End MoreCollectorLemmas.

(** X11: without a leading [name=value] argument, a variable whose policy
    in the resolved table is [varIgnore] is never in the set that [wenv]
    transmits, whatever [winpath] does; and every name in that set is the
    name of an entry of the environment that has an [=]. *)
Theorem ignored_never_transmitted {St : Type}
    (winpath : string -> M St (string * option error))
    (a : string) (args environ : list string) (wenv : string)
    (T : gmap string varopt) (st st' : St)
    (vars : gmap string string) (target : list string) :
  hasByte "=" a = false ->
  collect winpath (a :: args) environ wenv T st = Ok (Collected vars target, st') ->
  (forall n, (getvaropts wenv T).1 !! n = Some varIgnore -> vars !! n = None)
  /\ (forall n, vars !! n <> None ->
        exists e, e ∈ environ /\ entryName e = n /\ hasByte "=" e = true).
Proof.
  intros H C. rewrite (collect_ambient winpath a args environ wenv T st H) in C.
  destruct ((getvaropts wenv T).2); [discriminate C|].
  destruct (collectEnviron winpath (getvaropts wenv T).1 environ ∅ st)
    as [[v s]|] eqn:E; [|discriminate C].
  inversion C. subst v s target. clear C. split.
  - intros n I.
    rewrite (collectEnviron_untouched winpath _ _ _ _ _ _ n E); [apply lookup_empty|].
    intros e _ _. exact I.
  - intros n P.
    destruct (collectEnviron_names winpath _ _ _ _ _ _ n E P) as [Q|(e & He & N & B & _)].
    + now rewrite lookup_empty in Q.
    + eauto.
Qed.

Lemma ignored_never_transmitted_witness :
  collect MntRootWinpath ["cmd.exe"] ["TERM=xterm"; "X=1"; "SHELL=/bin/sh"]
    "!TERM" MntRootTable.varopts tt
  = Ok (Collected ({[ "X" := "1" ]} : gmap string string) ["cmd.exe"], tt)
  /\ (getvaropts "!TERM" MntRootTable.varopts).1 !! "TERM" = Some varIgnore
  /\ ({[ "X" := "1" ]} : gmap string string) !! "TERM" = None.
Proof.
  assert (collect MntRootWinpath ["cmd.exe"] ["TERM=xterm"; "X=1"; "SHELL=/bin/sh"]
            "!TERM" MntRootTable.varopts tt
          = Ok (Collected ({[ "X" := "1" ]} : gmap string string) ["cmd.exe"], tt)) as C
    by (vm_compute; reflexivity).
  assert ((getvaropts "!TERM" MntRootTable.varopts).1 !! "TERM" = Some varIgnore) as G
    by (vm_compute; reflexivity).
  split; [exact C|]. split; [exact G|].
  apply (proj1 (ignored_never_transmitted MntRootWinpath "cmd.exe" []
    ["TERM=xterm"; "X=1"; "SHELL=/bin/sh"] "!TERM" MntRootTable.varopts tt tt
    _ ["cmd.exe"] eq_refl C) "TERM" G).
Defined.

Section PureCollectorLemmas.

Context {St : Type}.
Variable winpath : string -> M St (string * option error).
Variable conv : string -> string * option error.
Variable inv : St -> Prop.
Hypothesis winpath_conv :
  forall path st, inv st -> exists st', winpath path st = Ok (conv path, st') /\ inv st'.
Hypothesis conv_empty : conv "" = ("", None).

Lemma collectEntry_forward (T : gmap string varopt) (e : string)
    (vars : gmap string string) (st : St) :
  inv st ->
  match forward conv T e vars with
  | Some vars1 => exists st1, collectEntry winpath T e vars st = Ok (vars1, st1) /\ inv st1
  | None => collectEntry winpath T e vars st = Panic
  end.
Proof.
  intros I. unfold forward, collectEntry. rewrite SplitN_2.
  destruct (Cut e "=") as [[n v]|].
  - destruct (T !! n) as [[| | |]|]; unfold bind, index1, ret; simpl.
    + now exists st.
    + now exists st.
    + destruct (winpath_conv v st I) as (st1 & -> & I1).
      destruct (conv v) as [w [err|]]; simpl; now exists st1.
    + destruct (convertSegments_spec winpath conv inv winpath_conv conv_empty
                  (Split v ":") [] st I) as (st1 & -> & I1).
      now exists st1.
    + now exists st.
  - destruct (T !! e) as [[| | |]|]; unfold bind, index1, panic, ret; simpl;
      try reflexivity.
    now exists st.
Qed.

Lemma collectEnviron_forward (T : gmap string varopt) (environ : list string)
    (vars : gmap string string) (st : St) :
  inv st ->
  match forwardAll conv T environ vars with
  | Some vars1 =>
      exists st1, collectEnviron winpath T environ vars st = Ok (vars1, st1) /\ inv st1
  | None => collectEnviron winpath T environ vars st = Panic
  end.
Proof.
  revert vars st. induction environ as [|e environ IH]; intros vars st I.
  - now exists st.
  - simpl. unfold bind. pose proof (collectEntry_forward T e vars st I) as F.
    destruct (forward conv T e vars) as [v1|].
    + destruct F as (st1 & -> & I1). apply IH, I1.
    + now rewrite F.
Qed.

End PureCollectorLemmas.

Section ForwardLemmas.

Variable conv : string -> string * option error.

Lemma forwardAll_None (T : gmap string varopt) (environ : list string)
    (vars : gmap string string) :
  forwardAll conv T environ vars = None
  <-> exists e, e ∈ environ /\ hasByte "=" e = false /\ T !! e <> Some varIgnore.
Proof.
  revert vars. induction environ as [|e environ IH]; intros vars.
  - split; [discriminate|]. intros (e & He & _). inversion He.
  - simpl. unfold forward.
    destruct (Cut e "=") as [[n v]|] eqn:C.
    + assert (hasByte "=" e = true) as HB.
      { destruct (hasByte "=" e) eqn:H; [reflexivity|].
        rewrite (Cut_none e "=" H) in C. discriminate. }
      assert (forall v1, forwardAll conv T environ v1 = None <->
                exists e0, e0 ∈ e :: environ /\ hasByte "=" e0 = false
                           /\ T !! e0 <> Some varIgnore) as G.
      { intros v1. rewrite IH. split.
        - intros (e0 & H0 & Q). exists e0. split; [now right|exact Q].
        - intros (e0 & H0 & N0 & Q). apply elem_of_cons in H0 as [->|H0]; [congruence|].
          eauto. }
      destruct (T !! n) as [[| | |]|]; try apply G.
      destruct (conv v) as [w [err|]]; apply G.
    + apply Cut_none_inv in C.
      destruct (T !! e) as [[| | |]|] eqn:V;
        try (split; [intros _; exists e; split; [now left|]; split; [exact C|congruence]
                    | reflexivity]).
      rewrite IH. split.
      * intros (e0 & H0 & Q). exists e0. split; [now right|exact Q].
      * intros (e0 & H0 & N0 & Q). apply elem_of_cons in H0 as [->|H0]; [congruence|].
        eauto.
Qed.

End ForwardLemmas.

Lemma WslConf_winpath_set (conf : option string) (root path : string) :
  root <> "" ->
  WslConf.winpath conf path root = Ok (WslConf.winpathAt root path, root).
Proof.
  intros R. unfold WslConf.winpath, WslConf.ensureRoot, bind.
  destruct (String.eqb root "") eqn:E; [|reflexivity].
  now apply String.eqb_eq in E.
Qed.

Lemma WslConf_winpath_conv (conf : option string) (root : string) :
  root <> "" ->
  forall path st, st = root ->
    exists st', WslConf.winpath conf path st = Ok (WslConf.winpathAt root path, st')
                /\ st' = root.
Proof.
  intros R path st ->. exists root. split; [now apply WslConf_winpath_set|reflexivity].
Qed.

Lemma winpathAt_empty (root : string) : WslConf.winpathAt root "" = ("", None).
Proof. unfold WslConf.winpathAt, findDrive. now destruct root. Qed.

Lemma MntRoot_winpath_conv :
  forall path (st : unit), True ->
    exists st', MntRootWinpath path st = Ok (MntRoot.winpath path, st') /\ True.
Proof. intros path [] _. now exists tt. Qed.

(** X12: a variable whose policy is [varPass], or that is not in the table,
    is set to the value of its last entry in the environment, byte for byte,
    whatever [winpath] does. *)
Theorem passed_verbatim {St : Type}
    (winpath : string -> M St (string * option error))
    (T : gmap string varopt) (before after : list string) (n v : string)
    (vars vars' : gmap string string) (st st' : St) :
  hasByte "=" n = false ->
  T !! n = Some varPass \/ T !! n = None ->
  (forall e, e ∈ after -> entryName e <> n) ->
  collectEnviron winpath T (before ++ (n +:+ String "=" v) :: after) vars st
    = Ok (vars', st') ->
  vars' !! n = Some v.
Proof.
  intros N P A H. rewrite collectEnviron_app in H.
  destruct (collectEnviron winpath T before vars st) as [[v1 s1]|]; [|discriminate H].
  simpl in H. unfold bind in H.
  assert (collectEntry winpath T (n +:+ String "=" v) v1 s1 = Ok (<[n := v]> v1, s1)) as E.
  { unfold collectEntry. rewrite SplitN_2, (Cut_app n v "=" N).
    destruct P as [-> | ->]; reflexivity. }
  rewrite E in H.
  rewrite (collectEnviron_untouched winpath _ _ _ _ _ _ n H).
  - apply lookup_insert_eq.
  - intros e He Q. now destruct (A e He).
Qed.

Lemma passed_verbatim_witness :
  ({[ "LANG" := "/mnt/c=C" ]} : gmap string string) !! "LANG" = Some "/mnt/c=C".
Proof.
  assert (collectEnviron MntRootWinpath MntRootTable.varopts
            (["LANG=x"] ++ ("LANG" +:+ String "=" "/mnt/c=C") :: ["HOME=/home/u"]) ∅ tt
          = Ok (({[ "LANG" := "/mnt/c=C" ]} : gmap string string), tt)) as C
    by (vm_compute; reflexivity).
  apply (passed_verbatim MntRootWinpath MntRootTable.varopts ["LANG=x"] ["HOME=/home/u"]
           "LANG" "/mnt/c=C" ∅ _ tt tt eq_refl).
  - right. vm_compute. reflexivity.
  - intros e He. apply list_elem_of_singleton in He. subst e. discriminate.
  - exact C.
Defined.

(** X13: a variable whose policy is [varConvert] is set to the conversion of
    the value of its last entry when [winpath] converts it; when [winpath]
    does not, that entry sets nothing, so a variable with no other entry is
    not transmitted.  In revision [MntRoot], and in revision [WslConf] once
    the mount root is set, to a root that stands for itself in a pattern. *)
Theorem converted_or_dropped (T : gmap string varopt) (before after : list string)
    (n v : string) (vars vars' : gmap string string) (conf : option string)
    (root : string) :
  hasByte "=" n = false -> T !! n = Some varConvert ->
  (forall e, e ∈ after -> entryName e <> n) ->
  root <> "" -> plain root = true ->
  (collectEnviron MntRootWinpath T (before ++ (n +:+ String "=" v) :: after) vars tt
     = Ok (vars', tt) ->
   (forall w, MntRoot.winpath v = (w, None) -> vars' !! n = Some w)
   /\ ((MntRoot.winpath v).2 <> None ->
       (forall e, e ∈ before -> entryName e <> n) -> vars' !! n = vars !! n))
  /\ (collectEnviron (WslConf.winpath conf) T (before ++ (n +:+ String "=" v) :: after)
        vars root = Ok (vars', root) ->
   (forall w, WslConf.winpathAt root v = (w, None) -> vars' !! n = Some w)
   /\ ((WslConf.winpathAt root v).2 <> None ->
       (forall e, e ∈ before -> entryName e <> n) -> vars' !! n = vars !! n)).
Proof.
  intros N V A R _.
  assert (forall St (winpath : string -> M St (string * option error)) conv
            (inv : St -> Prop) st st',
            (forall path st, inv st ->
               exists st', winpath path st = Ok (conv path, st') /\ inv st') ->
            conv "" = ("", None) -> inv st ->
            collectEnviron winpath T (before ++ (n +:+ String "=" v) :: after) vars st
              = Ok (vars', st') ->
            (forall w, conv v = (w, None) -> vars' !! n = Some w)
            /\ ((conv v).2 <> None ->
                (forall e, e ∈ before -> entryName e <> n) -> vars' !! n = vars !! n)) as G.
  { intros St winpath conv inv st st' WC CE I H.
    rewrite collectEnviron_app in H.
    pose proof (collectEnviron_forward winpath conv inv WC CE T before vars st I) as F.
    destruct (collectEnviron winpath T before vars st) as [[v1 s1]|] eqn:B;
      [|discriminate H].
    destruct (forwardAll conv T before vars) as [v1'|]; [|discriminate F].
    destruct F as (s1' & F & I1). inversion F. subst v1' s1'. clear F.
    simpl in H. unfold bind in H.
    pose proof (collectEntry_forward winpath conv inv WC CE T
                  (n +:+ String "=" v) v1 s1 I1) as E.
    unfold forward in E. rewrite (Cut_app n v "=" N), V in E.
    destruct (conv v) as [w [err|]] eqn:CV; destruct E as (s2 & E & I2);
      rewrite E in H;
      rewrite (collectEnviron_untouched winpath _ _ _ _ _ _ n H)
        by (intros e He Q; now destruct (A e He)).
    - split; [discriminate|]. intros _ Bf.
      apply (collectEnviron_untouched winpath _ _ _ _ _ _ n B).
      intros e He Q. now destruct (Bf e He).
    - split; [|simpl; congruence].
      intros w' W. inversion W. subst w'. apply lookup_insert_eq. }
  split; intros H.
  - apply (G unit MntRootWinpath MntRoot.winpath (fun _ => True) tt tt
             MntRoot_winpath_conv eq_refl I H).
  - apply (G string (WslConf.winpath conf) (WslConf.winpathAt root) (fun st => st = root)
             root root (WslConf_winpath_conv conf root R) (winpathAt_empty root) eq_refl H).
Qed.

Lemma converted_or_dropped_witness :
  ({[ "X" := "1" ]} : gmap string string) !! "HOME"
  = (∅ : gmap string string) !! "HOME".
Proof.
  assert (collectEnviron MntRootWinpath MntRootTable.varopts
            (["X=1"] ++ ("HOME" +:+ String "=" "/home/u") :: []) ∅ tt
          = Ok (({[ "X" := "1" ]} : gmap string string), tt)) as C
    by (vm_compute; reflexivity).
  assert (MntRootTable.varopts !! "HOME" = Some varConvert) as V
    by (vm_compute; reflexivity).
  assert (forall e : string, e ∈ ([] : list string) -> entryName e <> "HOME") as A
    by (intros e He; inversion He).
  assert (forall e : string, e ∈ ["X=1"] -> entryName e <> "HOME") as B
    by (intros e He; apply list_elem_of_singleton in He; subst e; discriminate).
  assert ("/mnt/" <> "") as R by discriminate.
  apply (proj2 (proj1 (converted_or_dropped MntRootTable.varopts ["X=1"] [] "HOME"
           "/home/u" ∅ _ None "/mnt/" eq_refl V A R eq_refl) C)).
  - discriminate.
  - exact B.
Defined.

(** X14: the collection of the environment panics exactly when the
    environment has an entry without [=] whose name is not ignored ([v[1]]
    is then out of range).  In revision [MntRoot], and in revision [WslConf]
    once the mount root is set, to a root that stands for itself in a
    pattern. *)
Theorem collect_panics_iff (T : gmap string varopt) (environ : list string)
    (vars : gmap string string) (conf : option string) (root : string) :
  root <> "" -> plain root = true ->
  (collectEnviron MntRootWinpath T environ vars tt = Panic
   <-> exists e, e ∈ environ /\ hasByte "=" e = false /\ T !! e <> Some varIgnore)
  /\ (collectEnviron (WslConf.winpath conf) T environ vars root = Panic
   <-> exists e, e ∈ environ /\ hasByte "=" e = false /\ T !! e <> Some varIgnore).
Proof.
  intros R _. split.
  - rewrite <- (forwardAll_None MntRoot.winpath T environ vars).
    pose proof (collectEnviron_forward MntRootWinpath MntRoot.winpath (fun _ => True)
                  MntRoot_winpath_conv eq_refl T environ vars tt I) as F.
    destruct (forwardAll MntRoot.winpath T environ vars) as [v1|].
    + destruct F as (s1 & -> & _). split; discriminate.
    + split; auto.
  - rewrite <- (forwardAll_None (WslConf.winpathAt root) T environ vars).
    pose proof (collectEnviron_forward (WslConf.winpath conf) (WslConf.winpathAt root)
                  (fun st => st = root) (WslConf_winpath_conv conf root R)
                  (winpathAt_empty root) T environ vars root eq_refl) as F.
    destruct (forwardAll (WslConf.winpathAt root) T environ vars) as [v1|].
    + destruct F as (s1 & -> & _). split; discriminate.
    + split; auto.
Qed.

Lemma collect_panics_iff_witness :
  collectEnviron MntRootWinpath MntRootTable.varopts ["X=1"; "BROKEN"] ∅ tt = Panic.
Proof.
  assert ("/mnt/" <> "") as R by discriminate.
  apply (proj2 (proj1 (collect_panics_iff MntRootTable.varopts ["X=1"; "BROKEN"] ∅
                         None "/mnt/" R eq_refl))).
  exists "BROKEN". split; [right; now left|].
  split; [reflexivity|]. vm_compute. discriminate.
Defined.

Section MoreCollectLemmas.

Lemma getvaropts_fails (wenv : string) (T : gmap string varopt) :
  named (overrides wenv) = false -> (getvaropts wenv T).2 <> None.
Proof.
  intros N H. assert (T = overlay [] T) as D
    by (unfold overlay; simpl; now rewrite (left_id ∅ (∪))).
  unfold getvaropts in H. destruct (String.eqb wenv "") eqn:W.
  - apply String.eqb_eq in W. subst wenv. discriminate N.
  - destruct (getvaroptsLoop_error (Split wenv ",") [] T N)
      as (l1 & opt & l2 & _ & _ & G).
    rewrite <- D in G. rewrite G in H. discriminate H.
Qed.

(** The arguments are the assignments, each with an [=], followed by what
    [explicitVars] leaves, which does not start with an assignment. *)
Lemma explicitVars_split (args : list string) (vars vars1 : gmap string string)
    (rest : list string) :
  explicitVars args vars = (vars1, rest) ->
  exists assignments, args = (assignments ++ rest)%list
    /\ (forall a, a ∈ assignments -> hasByte "=" a = true)
    /\ match rest with
       | [] => True
       | t :: _ => hasByte "=" t = false
       end.
Proof.
  revert vars. induction args as [|a args IH]; intros vars H.
  - simpl in H. inversion H. exists []. repeat split. intros a Ha. inversion Ha.
  - rewrite explicitVars_cons in H. destruct (Cut a "=") as [[n v]|] eqn:C.
    + destruct (IH _ H) as (asg & -> & A & R).
      exists (a :: asg). split; [reflexivity|]. split; [|exact R].
      intros a' Ha'. apply elem_of_cons in Ha' as [Q|Ha']; [subst a'|now apply A].
      destruct (hasByte "=" a) eqn:HB; [reflexivity|].
      rewrite (Cut_none a "=" HB) in C. discriminate.
    + inversion H. subst. exists []. split; [reflexivity|].
      split; [intros a' Ha'; inversion Ha'|]. now apply Cut_none_inv.
Qed.

End MoreCollectLemmas.

(** X15: without a leading [name=value] argument, a value of [WENV] with an
    entry that names no variable makes [wenv] return 1 before the
    environment is read and before any path is converted: the globals of
    [winpath] are left as they were. *)
Theorem malformed_WENV_aborts {St : Type}
    (winpath : string -> M St (string * option error))
    (a : string) (args environ : list string) (wenv : string)
    (T : gmap string varopt) (st : St) :
  hasByte "=" a = false -> named (overrides wenv) = false ->
  collect winpath (a :: args) environ wenv T st = Ok (Exit 1, st).
Proof.
  intros H N. rewrite (collect_ambient winpath a args environ wenv T st H).
  pose proof (getvaropts_fails wenv T N) as F.
  now destruct ((getvaropts wenv T).2).
Qed.

Lemma malformed_WENV_aborts_witness :
  collect (WslConf.winpath (Some "root=")) ["cmd.exe"] ["BROKEN"] "@" WslConfTable.varopts ""
  = Ok (Exit 1, "").
Proof.
  apply (malformed_WENV_aborts (WslConf.winpath (Some "root=")) "cmd.exe" []
           ["BROKEN"] "@" WslConfTable.varopts ""); reflexivity.
Defined.

(** X16: the command line that [wenv] goes on with starts at the first
    argument without [=]: the arguments before it all have one, and the
    name of the target never does, so a command whose name has an [=]
    cannot be the target. *)
Theorem target_has_no_equals {St : Type}
    (winpath : string -> M St (string * option error))
    (args environ : list string) (wenv : string) (T : gmap string varopt)
    (st st' : St) (vars : gmap string string) (target : list string) :
  collect winpath args environ wenv T st = Ok (Collected vars target, st') ->
  exists t rest assignments,
    target = t :: rest /\ hasByte "=" t = false
    /\ args = (assignments ++ target)%list
    /\ forall a, a ∈ assignments -> hasByte "=" a = true.
Proof.
  unfold collect. destruct args as [|a args]; [discriminate|].
  destruct (explicitVars (a :: args) ∅) as [vars1 rest] eqn:E.
  destruct (explicitVars_split _ _ _ _ E) as (asg & Q & A & R).
  destruct rest as [|t rest]; [discriminate|].
  assert (exists t0 rest0 assignments,
            t :: rest = t0 :: rest0 /\ hasByte "=" t0 = false
            /\ a :: args = (assignments ++ t :: rest)%list
            /\ forall a0, a0 ∈ assignments -> hasByte "=" a0 = true) as G.
  { exists t, rest, asg. auto. }
  destruct (decide (size vars1 = 0%nat)).
  - destruct (getvaropts wenv T) as [T' [err|]]; [discriminate|].
    unfold bind, ret.
    destruct (collectEnviron winpath T' environ vars1 st) as [[v s]|]; [|discriminate].
    intros H. inversion H. subst. exact G.
  - intros H. inversion H. subst. exact G.
Qed.

Lemma target_has_no_equals_witness :
  exists t rest assignments,
    ["cmd.exe"; "/c"; "set A=1"] = t :: rest /\ hasByte "=" t = false
    /\ ["A=1"; "B=2"; "cmd.exe"; "/c"; "set A=1"]
       = (assignments ++ ["cmd.exe"; "/c"; "set A=1"])%list
    /\ forall a, a ∈ assignments -> hasByte "=" a = true.
Proof.
  assert (collect MntRootWinpath ["A=1"; "B=2"; "cmd.exe"; "/c"; "set A=1"] [] ""
            MntRootTable.varopts tt
          = Ok (Collected (exactly [("A", "1"); ("B", "2")]) ["cmd.exe"; "/c"; "set A=1"], tt))
    as C by (vm_compute; reflexivity).
  apply (target_has_no_equals MntRootWinpath _ _ _ _ tt tt _ _ C).
Defined.

(** ** The launch *)

Section LaunchLemmas.

Lemma execRetry_result (E : nat -> execResult) (fuel i : nat) (r : launched) :
  execRetry E fuel i = Some r -> (i <= 10)%nat ->
  exists n, (i < n <= 11)%nat
    /\ (forall j, (i <= j < n - 1)%nat -> E j = Failed (Errno ENOMEM))
    /\ ((r = ImageReplaced n /\ E (n - 1)%nat = Replaced)
        \/ (r = Returned 1 n /\ exists err, E (n - 1)%nat = Failed err)).
Proof.
  revert i. induction fuel as [|fuel IH]; intros i H L; [discriminate H|].
  simpl in H. destruct (E i) as [|err] eqn:Ei.
  - inversion H. exists (S i). split; [lia|]. split; [intros j Hj; lia|].
    left. split; [reflexivity|]. now replace (S i - 1)%nat with i by lia.
  - assert (exists n, (i < n <= 11)%nat
      /\ (forall j, (i <= j < n - 1)%nat -> E j = Failed (Errno ENOMEM))
      /\ ((Returned 1 (S i) = ImageReplaced n /\ E (n - 1)%nat = Replaced)
          \/ (Returned 1 (S i) = Returned 1 n /\ exists err, E (n - 1)%nat = Failed err)))
      as Stop.
    { exists (S i). split; [lia|]. split; [intros j Hj; lia|].
      right. split; [reflexivity|]. replace (S i - 1)%nat with i by lia. eauto. }
    destruct err as [errno|]; [|inversion H; subst r; exact Stop].
    destruct ((errno =? ENOMEM)%Z && (i <? 10)%nat) eqn:C;
      [|inversion H; subst r; exact Stop].
    apply andb_true_iff in C as [C1 C2].
    apply Z.eqb_eq in C1. subst errno. apply Nat.ltb_lt in C2.
    destruct (IH (S i) H ltac:(lia)) as (n & B & F & R).
    exists n. split; [lia|]. split; [|exact R].
    intros j Hj. destruct (decide (j = i)) as [->|D]; [exact Ei|]. apply F. lia.
Qed.

(** What the call of [syscall.Exec] gives, in both revisions: between one and
    eleven calls, one call without the loop, and the code 1 when it
    returns. *)
Lemma exec_result (retry : bool) (E : nat -> execResult) :
  exists n, (1 <= n <= 11)%nat /\ (retry = false -> n = 1%nat)
    /\ ((Launcher.exec retry E = ImageReplaced n /\ E (n - 1)%nat = Replaced)
        \/ (Launcher.exec retry E = Returned 1 n /\ exists err, E (n - 1)%nat = Failed err)).
Proof.
  unfold Launcher.exec. destruct retry.
  - destruct (execRetry_total E 11 0) as (r & H & _); [lia..|]. rewrite H.
    destruct (execRetry_result E 11 0 r H) as (n & B & _ & R); [lia|].
    exists n. split; [lia|]. split; [discriminate|exact R].
  - exists 1%nat. split; [lia|]. split; [reflexivity|].
    unfold execOnce. simpl. destruct (E 0%nat); [left|right]; eauto.
Qed.

Context {St : Type}.
Variable winpath : string -> M St (string * option error).
Variable wslpath : string -> M St string.
Variable retry : bool.

Lemma launch_shape (sys : Launcher.system) (vars : gmap string string)
    (osArgs environ : list string) (st st' : St)
    (e : Launcher.ending) (tr : list Launcher.event) :
  Launcher.launch winpath wslpath retry sys vars osArgs environ st = Ok ((e, tr), st') ->
  launchShape winpath retry sys vars osArgs environ e tr /\ osArgs <> [].
Proof.
  unfold Launcher.launch, bind, ret, panic. intros H.
  destruct osArgs as [|target rest]; [discriminate H|]. split; [|discriminate].
  destruct (Launcher.LookPath sys target) as [path|] eqn:LT;
    [|inversion H; apply shape_early; [auto | simpl; now rewrite LT]].
  assert (forall code, code = 126%Z \/ code = 1%Z ->
            launchShape winpath retry sys vars (target :: rest) environ
              (Launcher.Exits code) []) as Early.
  { intros code C. apply shape_early; [tauto|]. simpl. rewrite LT.
    split; [lia | discriminate]. }
  destruct (winpath path st) as [[[wpath err] s1]|] eqn:WP; [|discriminate H].
  simpl in H. destruct err; [inversion H; apply Early; auto|].
  destruct (Launcher.Output sys) as [cmdout|]; [|inversion H; apply Early; auto].
  destruct (wslpath (TrimSpace cmdout) s1) as [[tempdir s2]|]; [|discriminate H].
  destruct (Launcher.TempFile sys tempdir "wenv") as [file|];
    [|inversion H; apply Early; auto].
  destruct (Launcher.Encode sys vars); simpl in H;
    [|inversion H; apply shape_unwritten].
  destruct (Launcher.Close sys); simpl in H; [|inversion H; apply shape_unclosed].
  destruct (Launcher.LookPath sys Launcher.helper) as [cmd|] eqn:LH.
  2:{ inversion H. apply (shape_failed _ _ _ _ _ _ file "" [] 0). lia. }
  destruct (winpath file s2) as [[[wfile err] s3]|] eqn:WF; [|discriminate H].
  simpl in H. destruct err.
  { inversion H. apply (shape_failed _ _ _ _ _ _ file "" [] 0). lia. }
  destruct (exec_result retry (Launcher.Exec sys)) as (n & B & O & [[R X]|[R X]]);
    rewrite R in H; inversion H.
  - now apply (shape_replaced _ _ _ _ _ _ path file cmd wfile wpath n st s1 s2 s3).
  - apply shape_failed. lia.
Qed.

Lemma wenv_shape (sys : Launcher.system) (args environ : list string) (WENV : string)
    (T : gmap string varopt) (st st' : St)
    (e : Launcher.ending) (tr : list Launcher.event) :
  Launcher.wenv winpath wslpath retry sys args environ WENV T st = Ok ((e, tr), st') ->
  (tr = [] /\ (e = Launcher.Exits 1 \/ e = Launcher.Exits 2))
  \/ exists vars target st1,
       collect winpath args environ WENV T st = Ok (Collected vars target, st1)
       /\ launchShape winpath retry sys vars target environ e tr /\ target <> [].
Proof.
  unfold Launcher.wenv, bind, ret. intros H.
  destruct (collect winpath args environ WENV T st) as [[[code|vars target] s1]|] eqn:C;
    [| |discriminate H].
  - inversion H. subst. left. split; [reflexivity|].
    unfold collect, bind, ret in C.
    destruct args as [|a args]; [inversion C; auto|].
    destruct (explicitVars (a :: args) ∅) as [v1 rest].
    destruct rest; [inversion C; auto|].
    destruct (decide (size v1 = 0%nat)); [|discriminate C].
    destruct (getvaropts WENV T) as [T' [err|]]; [inversion C; auto|].
    destruct (collectEnviron winpath T' environ v1 st) as [[? ?]|]; discriminate C.
  - right. exists vars, target, s1. split; [reflexivity|]. now apply launch_shape in H.
Qed.

End LaunchLemmas.

(** X17: when [wenv] returns, it returns 1, 2, 126 or 127, and it returns
    127 only when the target is not found; with a code other than 1 it has
    created no handoff file and has not called [syscall.Exec].  Whatever
    [winpath] and [wslpath] do, with or without the retry loop. *)
Theorem wenv_exit_codes {St : Type}
    (winpath : string -> M St (string * option error))
    (wslpath : string -> M St string) (retry : bool)
    (sys : Launcher.system) (args environ : list string) (WENV : string)
    (T : gmap string varopt) (st st' : St) (code : Z) (tr : list Launcher.event) :
  Launcher.wenv winpath wslpath retry sys args environ WENV T st
    = Ok ((Launcher.Exits code, tr), st') ->
  (code = 1%Z \/ code = 2%Z \/ code = 126%Z \/ code = 127%Z)
  /\ (code <> 1%Z -> tr = [])
  /\ (code = 127%Z ->
      exists vars target st1,
        collect winpath args environ WENV T st = Ok (Collected vars target, st1)
        /\ Launcher.LookPath sys (hd "" target) = None).
Proof.
  intros H.
  destruct (wenv_shape winpath wslpath retry sys args environ WENV T st st' _ _ H)
    as [[-> [E|E]]|(vars & target & s1 & C & S & N)].
  - inversion E. subst. split; [auto|]. split; [reflexivity|]. discriminate.
  - inversion E. subst. split; [auto|]. split; [reflexivity|]. discriminate.
  - inversion S; subst.
    + split; [tauto|]. split; [reflexivity|].
      intros Q. exists vars, target, s1. split; [exact C|]. tauto.
    + split; [auto|]. split; [congruence|discriminate].
    + split; [auto|]. split; [congruence|discriminate].
    + split; [auto|]. split; [congruence|discriminate].
Qed.

Lemma wenv_exit_codes_witness :
  (127 = 1 \/ 127 = 2 \/ 127 = 126 \/ 127 = 127)%Z
  /\ (127%Z <> 1%Z -> ([] : list Launcher.event) = [])
  /\ (127%Z = 127%Z ->
      exists vars target st1,
        collect MntRootWinpath ["nocmd.exe"] ["X=1"] "" MntRootTable.varopts tt
          = Ok (Collected vars target, st1)
        /\ Launcher.LookPath
             {| Launcher.LookPath := fun _ => None; Launcher.Output := None;
                Launcher.TempFile := fun _ _ => None; Launcher.Encode := fun _ => true;
                Launcher.Close := true; Launcher.Exec := fun _ => Replaced |}
             (hd "" target) = None).
Proof.
  apply (wenv_exit_codes MntRootWinpath MntRootWslpath true
           {| Launcher.LookPath := fun _ => None; Launcher.Output := None;
              Launcher.TempFile := fun _ _ => None; Launcher.Encode := fun _ => true;
              Launcher.Close := true; Launcher.Exec := fun _ => Replaced |}
           ["nocmd.exe"] ["X=1"] "" MntRootTable.varopts tt tt 127 []).
  vm_compute. reflexivity.
Defined.

Section TraceLemmas.

Lemma Removed_not_in_calls (f cmd : string) (argv envv : list string) (n : nat) :
  Launcher.Removed f ∉ replicate n (Launcher.Execed cmd argv envv).
Proof. intros H. apply elem_of_replicate in H as [H _]. discriminate H. Qed.

Lemma Created_not_in_calls (f cmd : string) (argv envv : list string) (n : nat) :
  Launcher.Created f ∉ replicate n (Launcher.Execed cmd argv envv).
Proof. intros H. apply elem_of_replicate in H as [H _]. discriminate H. Qed.

Lemma Closed_not_in_calls (f cmd : string) (argv envv : list string) (n : nat) :
  Launcher.Closed f ∉ replicate n (Launcher.Execed cmd argv envv).
Proof. intros H. apply elem_of_replicate in H as [H _]. discriminate H. Qed.

End TraceLemmas.

(** X18: the handoff file and the ways [wenv] ends.  When [wenv] returns
    after the file has been closed, the last thing it does is to remove the
    file.  When it returns with the file created but not closed (the encoding
    or the closing has failed) the file is not removed.  When the image is
    replaced, the file has been written with the set to transmit and closed,
    and is not removed. *)
Theorem handoff_cleanup {St : Type}
    (winpath : string -> M St (string * option error))
    (wslpath : string -> M St string) (retry : bool)
    (sys : Launcher.system) (args environ : list string) (WENV : string)
    (T : gmap string varopt) (st st' : St)
    (e : Launcher.ending) (tr : list Launcher.event) (file : string) :
  Launcher.wenv winpath wslpath retry sys args environ WENV T st = Ok ((e, tr), st') ->
  Launcher.Created file ∈ tr ->
  (forall f, Launcher.Created f ∈ tr -> f = file)
  /\ match e with
     | Launcher.Exits code =>
         code = 1%Z
         /\ (Launcher.Closed file ∈ tr -> last tr = Some (Launcher.Removed file))
         /\ (Launcher.Closed file ∉ tr -> forall f, Launcher.Removed f ∉ tr)
     | Launcher.Replaces =>
         Launcher.Closed file ∈ tr
         /\ (exists vars, Launcher.Encoded file vars ∈ tr)
         /\ forall f, Launcher.Removed f ∉ tr
     end.
Proof.
  intros H Cr.
  destruct (wenv_shape winpath wslpath retry sys args environ WENV T st st' _ _ H)
    as [[-> _]|(vars & target & s1 & C & S & N)]; [inversion Cr|].
  assert (forall (f g : string) c a n (post : list Launcher.event),
            Launcher.Created f ∈ ([Launcher.Created g; Launcher.Encoded g vars;
                                   Launcher.Closed g]
                                  ++ replicate n (Launcher.Execed c a environ) ++ post)%list ->
            (forall x, x ∈ post -> x = Launcher.Removed g) -> f = g) as One.
  { intros f g c a n post M P. rewrite !elem_of_app in M.
    destruct M as [M|[M|M]].
    - apply elem_of_cons in M as [M|M]; [now inversion M|].
      apply elem_of_cons in M as [M|M]; [discriminate M|].
      apply list_elem_of_singleton in M. discriminate M.
    - now apply Created_not_in_calls in M.
    - apply P in M. discriminate M. }
  inversion S; subst.
  - inversion Cr.
  - apply list_elem_of_singleton in Cr. inversion Cr. subst file0. split.
    + intros f M. apply list_elem_of_singleton in M. now inversion M.
    + split; [reflexivity|]. split.
      * intros M. apply list_elem_of_singleton in M. discriminate M.
      * intros _ f M. apply list_elem_of_singleton in M. discriminate M.
  - assert (file0 = file) as ->.
    { apply elem_of_cons in Cr as [Cr|Cr]; [now inversion Cr|].
      apply list_elem_of_singleton in Cr. discriminate Cr. }
    split.
    + intros f M. apply elem_of_cons in M as [M|M]; [now inversion M|].
      apply list_elem_of_singleton in M. discriminate M.
    + split; [reflexivity|]. split.
      * intros M. apply elem_of_cons in M as [M|M]; [discriminate M|].
        apply list_elem_of_singleton in M. discriminate M.
      * intros _ f M. apply elem_of_cons in M as [M|M]; [discriminate M|].
        apply list_elem_of_singleton in M. discriminate M.
  - assert (file = file0) as <-.
    { apply (One _ _ _ _ _ _ Cr). intros x M.
      now apply list_elem_of_singleton in M. }
    split.
    + intros f M. apply (One _ _ _ _ _ _ M). intros x Mx.
      now apply list_elem_of_singleton in Mx.
    + split; [reflexivity|]. split.
      * intros _. rewrite !app_assoc. apply last_snoc.
      * intros NC. exfalso. apply NC. apply elem_of_app. left.
        right. right. now left.
  - assert (file = file0) as <-.
    { rewrite <- (app_nil_r (replicate _ _)) in Cr.
      apply (One _ _ _ _ _ _ Cr). intros x M. inversion M. }
    split.
    + intros f M. rewrite <- (app_nil_r (replicate _ _)) in M.
      apply (One _ _ _ _ _ _ M). intros x Mx. inversion Mx.
    + split; [apply elem_of_app; left; right; right; now left|].
      split; [exists vars; apply elem_of_app; left; right; now left|].
      intros f M. apply elem_of_app in M as [M|M].
      * apply elem_of_cons in M as [M|M]; [discriminate M|].
        apply elem_of_cons in M as [M|M]; [discriminate M|].
        apply list_elem_of_singleton in M. discriminate M.
      * now apply Removed_not_in_calls in M.
Qed.

Lemma handoff_cleanup_witness :
  exists tr,
    Launcher.wenv MntRootWinpath MntRootWslpath true
      (obligingSystem (fun i => if (i <? 2)%nat then Failed (Errno ENOMEM) else Failed NotErrno))
      ["A=1"; "cmd.exe"] ["X=1"] "" MntRootTable.varopts tt
    = Ok ((Launcher.Exits 1, tr), tt)
    /\ last tr = Some (Launcher.Removed "/mnt/c/Temp/wenv042").
Proof.
  eexists. split; [vm_compute; reflexivity|].
  refine (proj1 (proj2 (proj2 (handoff_cleanup MntRootWinpath MntRootWslpath true
    (obligingSystem (fun i => if (i <? 2)%nat then Failed (Errno ENOMEM) else Failed NotErrno))
    ["A=1"; "cmd.exe"] ["X=1"] "" MntRootTable.varopts tt tt (Launcher.Exits 1) _
    "/mnt/c/Temp/wenv042" _ _))) _).
  - vm_compute. reflexivity.
  - now left.
  - right. right. now left.
Defined.

(** X19: when the image of the launcher is replaced, the helper found by
    [exec.LookPath] is executed with the arguments [wenvhelper.exe], the
    converted name of the handoff file, the converted path of the target,
    and then the command line of the target as it was given, with the
    environment of the launcher unchanged; every call of [syscall.Exec] has
    these same arguments, there are at most eleven calls (one without the
    retry loop), and the handoff file was created, written with the
    collected set and closed before the first call. *)
Theorem helper_invocation {St : Type}
    (winpath : string -> M St (string * option error))
    (wslpath : string -> M St string) (retry : bool)
    (sys : Launcher.system) (args environ : list string) (WENV : string)
    (T : gmap string varopt) (st st' : St) (tr : list Launcher.event) :
  Launcher.wenv winpath wslpath retry sys args environ WENV T st
    = Ok ((Launcher.Replaces, tr), st') ->
  exists vars target st1 path wpath file wfile cmd n sa sb sc sd,
    collect winpath args environ WENV T st = Ok (Collected vars target, st1)
    /\ target <> []
    /\ Launcher.LookPath sys (hd "" target) = Some path
    /\ winpath path sa = Ok ((wpath, None), sb)
    /\ Launcher.LookPath sys Launcher.helper = Some cmd
    /\ winpath file sc = Ok ((wfile, None), sd)
    /\ (1 <= n <= 11)%nat /\ (retry = false -> n = 1%nat)
    /\ Launcher.Exec sys (n - 1)%nat = Replaced
    /\ tr = ([Launcher.Created file; Launcher.Encoded file vars; Launcher.Closed file]
             ++ replicate n
                  (Launcher.Execed cmd (Launcher.helper :: wfile :: wpath :: target)
                     environ))%list.
Proof.
  intros H.
  destruct (wenv_shape winpath wslpath retry sys args environ WENV T st st' _ _ H)
    as [[_ [E|E]]|(vars & target & s1 & C & S & N)]; [discriminate E..|].
  inversion S; subst.
  exists vars, target, s1, path, wpath, file, wfile, cmd, n, s0, s2, s3, s4.
  repeat split; auto; lia.
Qed.

Lemma helper_invocation_witness :
  exists tr vars target st1 path wpath file wfile cmd n sa sb sc sd,
    Launcher.wenv MntRootWinpath MntRootWslpath true
      (obligingSystem (fun i => if (i <? 2)%nat then Failed (Errno ENOMEM) else Replaced))
      ["cmd.exe"; "/c"; "set"] ["X=1"] "" MntRootTable.varopts tt
    = Ok ((Launcher.Replaces, tr), tt)
    /\ collect MntRootWinpath ["cmd.exe"; "/c"; "set"] ["X=1"] "" MntRootTable.varopts tt
       = Ok (Collected vars target, st1)
    /\ target <> []
    /\ Launcher.LookPath (obligingSystem (fun i => if (i <? 2)%nat then Failed (Errno ENOMEM) else Replaced))
         (hd "" target) = Some path
    /\ MntRootWinpath path sa = Ok ((wpath, None), sb)
    /\ Launcher.LookPath (obligingSystem (fun i => if (i <? 2)%nat then Failed (Errno ENOMEM) else Replaced))
         Launcher.helper = Some cmd
    /\ MntRootWinpath file sc = Ok ((wfile, None), sd)
    /\ (1 <= n <= 11)%nat /\ (true = false -> n = 1%nat)
    /\ Launcher.Exec (obligingSystem (fun i => if (i <? 2)%nat then Failed (Errno ENOMEM) else Replaced))
         (n - 1)%nat = Replaced
    /\ tr = ([Launcher.Created file; Launcher.Encoded file vars; Launcher.Closed file]
             ++ replicate n
                  (Launcher.Execed cmd (Launcher.helper :: wfile :: wpath :: target)
                     ["X=1"]))%list.
Proof.
  eassert (Launcher.wenv MntRootWinpath MntRootWslpath true
      (obligingSystem (fun i => if (i <? 2)%nat then Failed (Errno ENOMEM) else Replaced))
      ["cmd.exe"; "/c"; "set"] ["X=1"] "" MntRootTable.varopts tt
    = Ok ((Launcher.Replaces, _), tt)) as H by (vm_compute; reflexivity).
  destruct (helper_invocation MntRootWinpath MntRootWslpath true _ _ _ _ _ _ _ _ H)
    as (vars & target & st1 & path & wpath & file & wfile & cmd & n & sa & sb & sc & sd & R).
  eexists. exists vars, target, st1, path, wpath, file, wfile, cmd, n, sa, sb, sc, sd.
  split; [exact H | exact R].
Defined.

Section HandoffLemmas.

Context {St : Type}.
Variable winpath : string -> M St (string * option error).

Lemma launchShape_encoded (retry : bool) (sys : Launcher.system)
    (vars : gmap string string) (osArgs environ : list string)
    (e : Launcher.ending) (tr : list Launcher.event) (f : string)
    (v : gmap string string) :
  launchShape winpath retry sys vars osArgs environ e tr ->
  Launcher.Encoded f v ∈ tr -> v = vars.
Proof.
  assert (forall g c a n (post : list Launcher.event),
            Launcher.Encoded f v ∈ ([Launcher.Created g; Launcher.Encoded g vars;
                                     Launcher.Closed g]
                                    ++ replicate n (Launcher.Execed c a environ) ++ post)%list ->
            (forall x, x ∈ post -> x = Launcher.Removed g) -> v = vars) as One.
  { intros g c a n post M P. rewrite !elem_of_app in M.
    destruct M as [M|[M|M]].
    - apply elem_of_cons in M as [M|M]; [discriminate M|].
      apply elem_of_cons in M as [M|M]; [now inversion M|].
      apply list_elem_of_singleton in M. discriminate M.
    - apply elem_of_replicate in M as [M _]. discriminate M.
    - apply P in M. discriminate M. }
  intros S M. inversion S; subst.
  - inversion M.
  - apply list_elem_of_singleton in M. discriminate M.
  - apply elem_of_cons in M as [M|M]; [discriminate M|].
    apply list_elem_of_singleton in M. now inversion M.
  - apply (One _ _ _ _ _ M). intros x Mx. now apply list_elem_of_singleton in Mx.
  - rewrite <- (app_nil_r (replicate _ _)) in M.
    apply (One _ _ _ _ _ M). intros x Mx. inversion Mx.
Qed.

(** The collection when the command line starts with an assignment. *)
Lemma collect_assignments (first : string) (args environ : list string)
    (wenv : string) (T : gmap string varopt) (st : St) :
  hasByte "=" first = true ->
  collect winpath (first :: args) environ wenv T st
  = Ok (match drop (length (leadingPairs (first :: args))) (first :: args) with
        | [] => Exit 2
        | (_ :: _) as target => Collected (exactly (leadingPairs (first :: args))) target
        end, st).
Proof.
  intros H. unfold collect.
  change (∅ : gmap string string) with (exactly []).
  rewrite explicitVars_pairs, app_nil_l.
  destruct (Cut_present first "=" H) as (name & value & C).
  cbn [leadingPairs]. rewrite C.
  destruct (drop _ _) as [|t target]; [reflexivity|].
  destruct (decide _) as [Z|_]; [|reflexivity].
  now apply exactly_nonempty in Z.
Qed.

End HandoffLemmas.

(** X20: what [wenv] writes to the handoff file is the set that the
    collection has given, unchanged; so with leading [name=value] arguments
    the file holds exactly those pairs, whatever the environment, [WENV]
    and the policies. *)
Theorem handoff_content {St : Type}
    (winpath : string -> M St (string * option error))
    (wslpath : string -> M St string) (retry : bool)
    (sys : Launcher.system) (args environ : list string) (WENV : string)
    (T : gmap string varopt) (st st' : St)
    (e : Launcher.ending) (tr : list Launcher.event)
    (file : string) (written : gmap string string) :
  Launcher.wenv winpath wslpath retry sys args environ WENV T st = Ok ((e, tr), st') ->
  Launcher.Encoded file written ∈ tr ->
  (exists target st1,
     collect winpath args environ WENV T st = Ok (Collected written target, st1))
  /\ (hasByte "=" (hd "" args) = true -> written = exactly (leadingPairs args)).
Proof.
  intros H M.
  destruct (wenv_shape winpath wslpath retry sys args environ WENV T st st' _ _ H)
    as [[-> _]|(vars & target & s1 & C & S & N)]; [inversion M|].
  rewrite (launchShape_encoded winpath _ _ _ _ _ _ _ _ _ S M).
  split; [eauto|].
  destruct args as [|first args]; [discriminate|]. simpl. intros E.
  rewrite (collect_assignments winpath first args environ WENV T st E) in C.
  destruct (drop _ _); inversion C. reflexivity.
Qed.

Lemma handoff_content_witness :
  exists tr written,
    Launcher.wenv MntRootWinpath MntRootWslpath true (obligingSystem (fun _ => Replaced))
      ["PATH=/mnt/c/x"; "cmd.exe"] ["PATH=/usr/bin"; "X=1"] "!PATH" MntRootTable.varopts tt
    = Ok ((Launcher.Replaces, tr), tt)
    /\ Launcher.Encoded "/mnt/c/Temp/wenv042" written ∈ tr
    /\ written = exactly (leadingPairs ["PATH=/mnt/c/x"; "cmd.exe"]).
Proof.
  eassert (Launcher.wenv MntRootWinpath MntRootWslpath true (obligingSystem (fun _ => Replaced))
      ["PATH=/mnt/c/x"; "cmd.exe"] ["PATH=/usr/bin"; "X=1"] "!PATH" MntRootTable.varopts tt
    = Ok ((Launcher.Replaces, _), tt)) as H by (vm_compute; reflexivity).
  match type of H with
  | _ = Ok ((_, ?tr), _) =>
      eassert (Launcher.Encoded "/mnt/c/Temp/wenv042" _ ∈ tr) as M by (right; left)
  end.
  eexists. eexists. split; [exact H|]. split; [exact M|].
  apply (proj2 (handoff_content MntRootWinpath MntRootWslpath true _ _ _ _ _ _ _ _ _ _ _ H M)).
  reflexivity.
Defined.

(** ** The path lists, from the environment to the handoff file *)

Section PathListLemmas.

Context {St : Type}.
Variable winpath : string -> M St (string * option error).
Variable conv : string -> string * option error.
Variable inv : St -> Prop.
Hypothesis winpath_conv :
  forall path st, inv st -> exists st', winpath path st = Ok (conv path, st') /\ inv st'.
Hypothesis conv_empty : conv "" = ("", None).

(** The loop over the environment sets a variable whose policy is [varPath]
    from its last entry. *)
Lemma collectEnviron_varPath (T : gmap string varopt) (before after : list string)
    (n value : string) (vars vars' : gmap string string) (st st' : St) :
  inv st -> hasByte "=" n = false -> T !! n = Some varPath ->
  (forall e, e ∈ after -> entryName e <> n) ->
  collectEnviron winpath T (before ++ (n +:+ String "=" value) :: after) vars st
    = Ok (vars', st') ->
  vars' !! n = Some (pathList conv value).
Proof.
  intros I N V A H. rewrite collectEnviron_app in H.
  pose proof (collectEnviron_forward winpath conv inv winpath_conv conv_empty
                T before vars st I) as F.
  destruct (collectEnviron winpath T before vars st) as [[v1 s1]|];
    [|discriminate H].
  destruct (forwardAll conv T before vars) as [v1'|]; [|discriminate F].
  destruct F as (s1' & F & I1). inversion F. subst v1' s1'. clear F.
  simpl in H. unfold bind in H.
  destruct (collectEntry_varPath winpath conv inv winpath_conv conv_empty
              T n value v1 s1 I1 N V) as (s2 & E & I2).
  rewrite E in H.
  rewrite (collectEnviron_untouched winpath _ _ _ _ _ _ n H)
    by (intros e He Q; now destruct (A e He)).
  apply lookup_insert_eq.
Qed.

Lemma collect_transmitsPathList (T : gmap string varopt) (WENV a : string)
    (args before after : list string) (n value : string) (st : St) :
  inv st -> hasByte "=" a = false -> (getvaropts WENV T).2 = None ->
  (getvaropts WENV T).1 !! n = Some varPath -> hasByte "=" n = false ->
  (forall e, e ∈ after -> entryName e <> n) ->
  transmitsPathList winpath st conv T WENV (a :: args)
    (before ++ (n +:+ String "=" value) :: after) n value.
Proof.
  intros I HA G V N A.
  assert (forall vars target st',
            collect winpath (a :: args) (before ++ (n +:+ String "=" value) :: after)
              WENV T st = Ok (Collected vars target, st') ->
            vars !! n = Some (pathList conv value)) as Value.
  { intros vars target st' H. rewrite (collect_ambient winpath a args _ WENV T st HA) in H.
    rewrite G in H.
    destruct (collectEnviron winpath (getvaropts WENV T).1
                (before ++ (n +:+ String "=" value) :: after) ∅ st)
      as [[v1 s1]|] eqn:C; [|discriminate H].
    inversion H. subst v1 target s1.
    exact (collectEnviron_varPath _ before after n value ∅ vars st st' I N V A C). }
  split; [exact Value|]. split.
  - intros Eq. rewrite (collect_ambient winpath a args _ WENV T st HA), G.
    pose proof (collectEnviron_forward winpath conv inv winpath_conv conv_empty
                  (getvaropts WENV T).1 (before ++ (n +:+ String "=" value) :: after)
                  ∅ st I) as F.
    destruct (forwardAll conv (getvaropts WENV T).1
                (before ++ (n +:+ String "=" value) :: after) ∅) as [v1|] eqn:FA.
    + destruct F as (s1 & -> & _). eauto.
    + apply forwardAll_None in FA as (e & He & B & X).
      now destruct (X (Eq e He B)).
  - intros wslpath retry sys e tr st' file written H M.
    destruct (wenv_shape winpath wslpath retry sys _ _ WENV T st st' _ _ H)
      as [[-> _]|(vars & target & s1 & C & S & _)]; [inversion M|].
    rewrite (launchShape_encoded winpath retry sys vars target _ e tr file written S M).
    exact (Value vars target s1 C).
Qed.

End PathListLemmas.

(** Revision [WslConf] from the start, when [wslRoot] is empty: every
    conversion is made with the root that [getWSLRoot] finds. *)
Lemma WslConf_winpath_initial (conf : option string) (root : string) :
  WslConf.getWSLRoot conf = Ok root ->
  forall path st, st = "" \/ st = root ->
    exists st', WslConf.winpath conf path st = Ok (WslConf.winpathAt root path, st')
                /\ (st' = "" \/ st' = root).
Proof.
  intros G path st I. unfold WslConf.winpath, WslConf.ensureRoot, bind.
  destruct (String.eqb st "") eqn:E.
  - rewrite G. exists root. auto.
  - destruct I as [I | I]; subst st; [discriminate E|]. exists root. auto.
Qed.

(** Without a root the first conversion panics, and so does the turn of a
    path list, whose value has at least one segment. *)
Lemma pathList_needs_root (conf : option string) (T : gmap string varopt)
    (n value : string) (vars : gmap string string) :
  WslConf.getWSLRoot conf = Panic ->
  hasByte "=" n = false -> T !! n = Some varPath ->
  collectEntry (WslConf.winpath conf) T (n +:+ String "=" value) vars "" = Panic.
Proof.
  intros G N V. unfold collectEntry.
  rewrite SplitN_2, (Cut_app n value "=" N), V.
  unfold bind, index1, ret. simpl.
  destruct (Split_pieces value ":") as (p & ps & S & _). rewrite S.
  simpl. unfold bind, WslConf.winpath, WslConf.ensureRoot, bind. simpl.
  now rewrite G.
Qed.

(** C2: without a leading [name=value] argument and with a well-formed
    [WENV], a variable [n] whose policy in the resolved table is [varPath]
    is transmitted with the value of its last entry in the environment split
    on [:], every segment converted by [winpath] (the conversion of an empty
    segment being the empty segment), the segments whose conversion fails
    dropped, and the others joined with [;].  This is so for the set that
    the collector returns and for what [wenv] writes to the handoff file;
    the collector does return a set when every entry of the environment has
    an [=] or is ignored.  The variable is set whatever the segments: when
    every segment fails its value is the empty string.  In revision
    [MntRoot], and in revision [WslConf] from the start, where [wslRoot] is
    empty and the first conversion reads the mount root, which the
    conversions then use.  Under the default mount root and in revision
    [MntRoot] the value [/mnt/c/a:/mnt/d/b] is transmitted as [C:\a;D:\b],
    and [/mnt/c/a::/usr/bin:/mnt/d/b], with an empty segment and one that
    does not convert, as [C:\a;;D:\b]. *)
Theorem pathlist_transmitted (T : gmap string varopt) (WENV a : string)
    (args before after : list string) (n value : string)
    (conf : option string) (root : string) :
  hasByte "=" a = false -> (getvaropts WENV T).2 = None ->
  (getvaropts WENV T).1 !! n = Some varPath -> hasByte "=" n = false ->
  (forall e, e ∈ after -> entryName e <> n) ->
  transmitsPathList MntRootWinpath tt MntRoot.winpath T WENV (a :: args)
    (before ++ (n +:+ String "=" value) :: after) n value
  /\ (WslConf.getWSLRoot conf = Ok root -> plain root = true ->
      transmitsPathList (WslConf.winpath conf) "" (WslConf.winpathAt root) T WENV
        (a :: args) (before ++ (n +:+ String "=" value) :: after) n value)
  /\ ((forall e, e ∈ Split value ":" -> (MntRoot.winpath e).2 <> None) ->
      pathList MntRoot.winpath value = "")
  /\ ((forall e, e ∈ Split value ":" -> (WslConf.winpathAt root e).2 <> None) ->
      pathList (WslConf.winpathAt root) value = "")
  /\ pathList (WslConf.winpathAt WslConf.defaultRoot) "/mnt/c/a:/mnt/d/b" = "C:\a;D:\b"
  /\ pathList MntRoot.winpath "/mnt/c/a:/mnt/d/b" = "C:\a;D:\b"
  /\ pathList MntRoot.winpath "/mnt/c/a::/usr/bin:/mnt/d/b" = "C:\a;;D:\b".
Proof.
  intros HA G V N A. split; [|split; [|split; [|split; [|repeat split]]]].
  - exact (collect_transmitsPathList MntRootWinpath MntRoot.winpath (fun _ => True)
             MntRoot_winpath_conv eq_refl T WENV a args before after n value tt
             I HA G V N A).
  - intros R _.
    exact (collect_transmitsPathList (WslConf.winpath conf) (WslConf.winpathAt root)
             (fun st => st = "" \/ st = root) (WslConf_winpath_initial conf root R)
             (winpathAt_empty root) T WENV a args before after n value ""
             (or_introl eq_refl) HA G V N A).
  - now apply pathList_all_fail.
  - apply pathList_all_fail. apply winpathAt_empty.
Qed.

Lemma pathlist_transmitted_witness :
  exists vars,
    collect (WslConf.winpath None) ["cmd.exe"]
      ["X=1"; "PATH=/mnt/c/a:/mnt/d/b"; "TERM=xterm"] "" WslConfTable.varopts ""
    = Ok (Collected vars ["cmd.exe"], "/mnt/")
    /\ vars !! "PATH" = Some "C:\a;D:\b".
Proof.
  eexists. split; [vm_compute; reflexivity|].
  assert ((getvaropts "" WslConfTable.varopts).2 = None) as G
    by (vm_compute; reflexivity).
  assert ((getvaropts "" WslConfTable.varopts).1 !! "PATH" = Some varPath) as V
    by (vm_compute; reflexivity).
  assert (forall e : string, e ∈ ["TERM=xterm"] -> entryName e <> "PATH") as A
    by (intros e He; apply list_elem_of_singleton in He; subst e; discriminate).
  refine (proj1 (proj1 (proj2 (pathlist_transmitted WslConfTable.varopts "" "cmd.exe"
            [] ["X=1"] ["TERM=xterm"] "PATH" "/mnt/c/a:/mnt/d/b" None "/mnt/"
            eq_refl G V eq_refl A)) eq_refl eq_refl) _ ["cmd.exe"] "/mnt/" _).
  vm_compute. reflexivity.
Defined.

(** ** The helper's [main] *)

Section HelperMainLemmas.

Lemma setAll_true (h : HelperMain.host) (kvs : list (string * string))
    (sets : list HelperMain.event) :
  HelperMain.setAll h kvs = (true, sets) ->
  sets = (fun kv => HelperMain.EnvSet kv.1 kv.2) <$> kvs
  /\ forall k v, (k, v) ∈ kvs -> HelperMain.Setenv h k v = true.
Proof.
  revert sets. induction kvs as [|[k v] kvs IH]; intros sets H.
  - simpl in H. inversion H. split; [reflexivity|]. intros k v M. inversion M.
  - simpl in H. destruct (HelperMain.Setenv h k v) eqn:S; [|discriminate H].
    destruct (HelperMain.setAll h kvs) as [ok sets'].
    inversion H. subst ok sets. destruct (IH sets' eq_refl) as [-> A].
    split; [reflexivity|]. intros k' v' M.
    apply elem_of_cons in M as [M|M]; [now inversion M|now apply A].
Qed.

Lemma setAll_all (h : HelperMain.host) (kvs : list (string * string)) :
  (forall k v, (k, v) ∈ kvs -> HelperMain.Setenv h k v = true) ->
  HelperMain.setAll h kvs = (true, (fun kv => HelperMain.EnvSet kv.1 kv.2) <$> kvs).
Proof.
  induction kvs as [|[k v] kvs IH]; intros A; [reflexivity|].
  simpl. rewrite (A k v) by now left.
  rewrite IH by (intros k' v' M; apply A; now right). reflexivity.
Qed.

Lemma setAll_events (h : HelperMain.host) (kvs : list (string * string))
    (ok : bool) (sets : list HelperMain.event) (x : HelperMain.event) :
  HelperMain.setAll h kvs = (ok, sets) -> x ∈ sets ->
  exists k v, x = HelperMain.EnvSet k v.
Proof.
  revert ok sets. induction kvs as [|[k v] kvs IH]; intros ok sets H M.
  - simpl in H. inversion H. subst. inversion M.
  - simpl in H. destruct (HelperMain.Setenv h k v).
    + destruct (HelperMain.setAll h kvs) as [ok' sets'] eqn:E.
      inversion H. subst. apply elem_of_cons in M as [->|M]; [eauto|].
      eapply IH; [reflexivity|exact M].
    + inversion H. subst. inversion M.
Qed.

Lemma runTarget_returns (intSize : Z) (sys : Helper.system) (path : string)
    (targs : list string) :
  exists code, Helper.runTarget intSize sys (path :: targs) = Ok code.
Proof.
  unfold Helper.runTarget.
  destruct (negb (Helper.Start sys (Helper.command path targs))); [eauto|].
  destruct (Helper.Wait sys (Helper.command path targs)) as [[[s|]|]|]; eauto.
Qed.

End HelperMainLemmas.

(** X21: the helper checks its arguments before it touches anything: if it
    has opened the handoff file then it was given at least three arguments
    and the base name of the first starts with [wenv].  And if it has opened
    the file and not removed it (the decoding, the closing or the removal
    has failed), it exits with code 1 without having set a variable or
    started the target. *)
Theorem helper_validates_first (intSize : Z) (h : HelperMain.host)
    (args : list string) (code : Z) (tr : list HelperMain.event) :
  HelperMain.main intSize h args = Ok (code, tr) ->
  (tr <> [] ->
     (3 <= length args)%nat
     /\ exists file rest tl, args = file :: rest
          /\ HasPrefix (HelperMain.Base h file) HelperMain.fileprefix = true
          /\ HelperMain.Open h file = true
          /\ tr = HelperMain.Opened file :: tl)
  /\ (forall file, HelperMain.Opened file ∈ tr -> HelperMain.Removed file ∉ tr ->
        code = 1%Z
        /\ (forall k v, HelperMain.EnvSet k v ∉ tr)
        /\ forall cmd, HelperMain.Started cmd ∉ tr).
Proof.
  unfold HelperMain.main. intros H.
  destruct (length args <? 3)%nat eqn:L.
  { inversion H. subst. split; [congruence|]. intros f M. inversion M. }
  apply Nat.ltb_ge in L.
  destruct args as [|file args1]; [discriminate H|].
  destruct (HasPrefix (HelperMain.Base h file) HelperMain.fileprefix) eqn:P; simpl in H.
  2:{ inversion H. subst. split; [congruence|]. intros f M. inversion M. }
  destruct (HelperMain.Open h file) eqn:O; simpl in H.
  2:{ inversion H. subst. split; [congruence|]. intros f M. inversion M. }
  assert (forall tl, (3 <= length (file :: args1))%nat
     /\ exists file0 rest tl0, file :: args1 = file0 :: rest
          /\ HasPrefix (HelperMain.Base h file0) HelperMain.fileprefix = true
          /\ HelperMain.Open h file0 = true
          /\ HelperMain.Opened file :: tl = HelperMain.Opened file0 :: tl0) as First.
  { intros tl. split; [exact L|]. exists file, args1, tl. auto. }
  destruct (HelperMain.Decode h) as [vars|].
  2:{ inversion H. subst. split; [intros _; apply First|].
      intros f M _. split; [reflexivity|].
      split; [intros k v X|intros c X]; apply list_elem_of_singleton in X; discriminate X. }
  destruct (HelperMain.Close h); simpl in H.
  2:{ inversion H. subst. split; [intros _; apply First|].
      intros f M _. split; [reflexivity|].
      split; [intros k v X|intros c X]; apply list_elem_of_singleton in X; discriminate X. }
  destruct (HelperMain.Remove h file); simpl in H.
  2:{ inversion H. subst. split; [intros _; apply First|].
      intros f M _. split; [reflexivity|].
      split; [intros k v X|intros c X];
        (apply elem_of_cons in X as [X|X]; [discriminate X|]);
        apply list_elem_of_singleton in X; discriminate X. }
  assert (forall f tl, HelperMain.Opened f ∈
            (HelperMain.Opened file :: HelperMain.Closed file
             :: HelperMain.Removed file :: tl) ->
          (forall x, x ∈ tl -> forall g, x <> HelperMain.Opened g) ->
          HelperMain.Removed f ∈
            (HelperMain.Opened file :: HelperMain.Closed file
             :: HelperMain.Removed file :: tl)) as Rm.
  { intros f tl M N. apply elem_of_cons in M as [M|M].
    - inversion M. right. right. now left.
    - apply elem_of_cons in M as [M|M]; [discriminate M|].
      apply elem_of_cons in M as [M|M]; [discriminate M|].
      now destruct (N _ M f). }
  destruct (HelperMain.setAll h (HelperMain.range h vars)) as [ok sets] eqn:SA.
  destruct ok; simpl in H.
  2:{ inversion H. subst. split; [intros _; apply First|].
      intros f M NR. exfalso. apply NR. apply (Rm f sets M).
      intros x Mx g Q. subst x.
      destruct (setAll_events _ _ _ _ _ SA Mx) as (k & v & Q). discriminate Q. }
  destruct args1 as [|path targs]; [discriminate H|].
  destruct (Helper.runTarget intSize (HelperMain.process h) (path :: targs))
    as [c|]; [|discriminate H].
  inversion H. subst c tr. clear H.
  split.
  - intros _. destruct (Helper.Start _ _); apply First.
  - intros f M NR. exfalso. apply NR.
    destruct (Helper.Start (HelperMain.process h) (Helper.command path targs)).
    + apply (Rm f (sets ++ [HelperMain.Started (Helper.command path targs)])%list M).
      intros x Mx g Q. subst x. apply elem_of_app in Mx as [Mx|Mx].
      * destruct (setAll_events _ _ _ _ _ SA Mx) as (k & v & Q). discriminate Q.
      * apply list_elem_of_singleton in Mx. discriminate Mx.
    + apply (Rm f sets M).
      intros x Mx g Q. subst x.
      destruct (setAll_events _ _ _ _ _ SA Mx) as (k & v & Q). discriminate Q.
Qed.

Lemma helper_validates_first_witness :
  HelperMain.main 64 (obligingHost None (exiting 0))
    ["C:\Temp\wenv042"; "C:\bin\cmd.exe"; "cmd.exe"]
  = Ok (1%Z, [HelperMain.Opened "C:\Temp\wenv042"])
  /\ (3 <= length ["C:\Temp\wenv042"; "C:\bin\cmd.exe"; "cmd.exe"])%nat
  /\ forall cmd, HelperMain.Started cmd ∉ [HelperMain.Opened "C:\Temp\wenv042"].
Proof.
  assert (HelperMain.main 64 (obligingHost None (exiting 0))
            ["C:\Temp\wenv042"; "C:\bin\cmd.exe"; "cmd.exe"]
          = Ok (1%Z, [HelperMain.Opened "C:\Temp\wenv042"])) as H
    by (vm_compute; reflexivity).
  split; [exact H|].
  destruct (helper_validates_first 64 _ _ _ _ H) as [A B].
  split.
  - apply A. discriminate.
  - refine (proj2 (proj2 (B "C:\Temp\wenv042" _ _))).
    + now left.
    + intros M. apply list_elem_of_singleton in M. discriminate M.
Defined.

(** X22: when the helper starts the target, it has before that, in this
    order, opened, closed and removed the handoff file and set the decoded
    variables, and nothing else; the target is the second argument, run with
    the arguments that follow it and the standard streams of the helper, and
    the helper exits with the code computed from the target's end.  If
    [range] goes over every entry of the map once, the variables set are
    exactly the entries of the decoded map. *)
Theorem helper_starts_last (intSize : Z) (h : HelperMain.host)
    (args : list string) (code : Z) (tr : list HelperMain.event)
    (cmd : Helper.Cmd) :
  HelperMain.main intSize h args = Ok (code, tr) ->
  HelperMain.Started cmd ∈ tr ->
  exists file path targs vars,
    args = file :: path :: targs /\ targs <> []
    /\ HelperMain.Decode h = Some vars
    /\ cmd = Helper.command path targs
    /\ tr = ([HelperMain.Opened file; HelperMain.Closed file; HelperMain.Removed file]
             ++ ((fun kv => HelperMain.EnvSet kv.1 kv.2) <$> HelperMain.range h vars)
             ++ [HelperMain.Started cmd])%list
    /\ Helper.runTarget intSize (HelperMain.process h) (path :: targs) = Ok code
    /\ (HelperMain.range h vars ≡ₚ map_to_list vars ->
        forall k v, HelperMain.EnvSet k v ∈ tr <-> vars !! k = Some v).
Proof.
  unfold HelperMain.main. intros H M.
  destruct (length args <? 3)%nat eqn:L; [inversion H; subst; inversion M|].
  apply Nat.ltb_ge in L.
  destruct args as [|file args1]; [discriminate H|].
  destruct (negb (HasPrefix (HelperMain.Base h file) HelperMain.fileprefix));
    [inversion H; subst; inversion M|].
  destruct (negb (HelperMain.Open h file)); [inversion H; subst; inversion M|].
  destruct (HelperMain.Decode h) as [vars|].
  2:{ inversion H. subst. apply list_elem_of_singleton in M. discriminate M. }
  destruct (negb (HelperMain.Close h)).
  { inversion H. subst. apply list_elem_of_singleton in M. discriminate M. }
  destruct (negb (HelperMain.Remove h file)).
  { inversion H. subst. apply elem_of_cons in M as [M|M]; [discriminate M|].
    apply list_elem_of_singleton in M. discriminate M. }
  destruct (HelperMain.setAll h (HelperMain.range h vars)) as [ok sets] eqn:SA.
  assert (HelperMain.Started cmd ∉
            ([HelperMain.Opened file; HelperMain.Closed file; HelperMain.Removed file]
             ++ sets)%list) as NS.
  { intros X. apply elem_of_app in X as [X|X].
    - apply elem_of_cons in X as [X|X]; [discriminate X|].
      apply elem_of_cons in X as [X|X]; [discriminate X|].
      apply list_elem_of_singleton in X. discriminate X.
    - destruct (setAll_events _ _ _ _ _ SA X) as (k & v & Q). discriminate Q. }
  destruct ok; simpl in H; [|inversion H; subst; now destruct NS].
  destruct args1 as [|path targs]; [discriminate H|].
  destruct (Helper.runTarget intSize (HelperMain.process h) (path :: targs))
    as [c|] eqn:R; [|discriminate H].
  inversion H. subst c tr. clear H.
  destruct (Helper.Start (HelperMain.process h) (Helper.command path targs));
    [|now destruct NS].
  apply elem_of_cons in M as [M|M]; [discriminate M|].
  apply elem_of_cons in M as [M|M]; [discriminate M|].
  apply elem_of_cons in M as [M|M]; [discriminate M|].
  apply elem_of_app in M as [M|M].
  { destruct (setAll_events _ _ _ _ _ SA M) as (k & v & Q). discriminate Q. }
  apply list_elem_of_singleton in M. inversion M. subst cmd.
  destruct (setAll_true _ _ _ SA) as [-> _].
  exists file, path, targs, vars.
  split; [reflexivity|]. split; [destruct targs; [simpl in L; lia|discriminate]|].
  split; [reflexivity|]. split; [reflexivity|]. split; [reflexivity|].
  split; [exact R|].
  intros P k v. rewrite <- elem_of_map_to_list, <- P. split.
  - intros X.
    apply elem_of_cons in X as [X|X]; [discriminate X|].
    apply elem_of_cons in X as [X|X]; [discriminate X|].
    apply elem_of_cons in X as [X|X]; [discriminate X|].
    apply elem_of_app in X as [X|X].
    + apply list_elem_of_fmap in X as ([k' v'] & Q & X). now inversion Q.
    + apply list_elem_of_singleton in X. discriminate X.
  - intros X. do 3 apply elem_of_cons, or_intror.
    apply elem_of_app. left. apply list_elem_of_fmap. now exists (k, v).
Qed.

Lemma helper_starts_last_witness :
  HelperMain.main 64
    (obligingHost (Some (<["X" := "1"]> ∅)) (exiting 3))
    ["C:\Temp\wenv042"; "C:\bin\cmd.exe"; "cmd.exe"; "/c"]
  = Ok (3%Z, [HelperMain.Opened "C:\Temp\wenv042"; HelperMain.Closed "C:\Temp\wenv042";
              HelperMain.Removed "C:\Temp\wenv042"; HelperMain.EnvSet "X" "1";
              HelperMain.Started (Helper.command "C:\bin\cmd.exe" ["cmd.exe"; "/c"])])
  /\ forall k v,
       HelperMain.EnvSet k v ∈
         [HelperMain.Opened "C:\Temp\wenv042"; HelperMain.Closed "C:\Temp\wenv042";
          HelperMain.Removed "C:\Temp\wenv042"; HelperMain.EnvSet "X" "1";
          HelperMain.Started (Helper.command "C:\bin\cmd.exe" ["cmd.exe"; "/c"])]
       <-> (<["X" := "1"]> ∅ : gmap string string) !! k = Some v.
Proof.
  assert (HelperMain.main 64
            (obligingHost (Some (<["X" := "1"]> ∅)) (exiting 3))
            ["C:\Temp\wenv042"; "C:\bin\cmd.exe"; "cmd.exe"; "/c"]
          = Ok (3%Z, [HelperMain.Opened "C:\Temp\wenv042"; HelperMain.Closed "C:\Temp\wenv042";
              HelperMain.Removed "C:\Temp\wenv042"; HelperMain.EnvSet "X" "1";
              HelperMain.Started (Helper.command "C:\bin\cmd.exe" ["cmd.exe"; "/c"])])) as H
    by (vm_compute; reflexivity).
  split; [exact H|].
  destruct (helper_starts_last 64 _ _ _ _
              (Helper.command "C:\bin\cmd.exe" ["cmd.exe"; "/c"]) H)
    as (file & path & targs & vars & _ & _ & D & _ & _ & _ & P).
  - do 4 right. now left.
  - simpl in D. inversion D. subst vars. apply P. reflexivity.
Defined.

(** X23: the launcher and the helper fit together.  When the launcher has
    executed the helper, the arguments it passed are enough for the helper
    (at least three after its own name); and if the helper finds the handoff
    file under a name whose base starts with [wenv], reads from it the set
    that the launcher collected, and can close and remove it and set the
    variables, then it sets each collected variable in the order of [range]
    and runs the converted path of the target with the target's command line
    as it was given to the launcher. *)
Theorem launcher_to_helper {St : Type}
    (winpath : string -> M St (string * option error))
    (wslpath : string -> M St string) (retry : bool)
    (sys : Launcher.system) (args environ : list string) (WENV : string)
    (T : gmap string varopt) (st st' : St) (tr : list Launcher.event)
    (cmd : string) (argv envv : list string)
    (intSize : Z) (h : HelperMain.host) :
  Launcher.wenv winpath wslpath retry sys args environ WENV T st
    = Ok ((Launcher.Replaces, tr), st') ->
  Launcher.Execed cmd argv envv ∈ tr ->
  exists vars target st1 wfile wpath,
    collect winpath args environ WENV T st = Ok (Collected vars target, st1)
    /\ argv = Launcher.helper :: wfile :: wpath :: target
    /\ (3 <= length (tail argv))%nat
    /\ (HasPrefix (HelperMain.Base h wfile) HelperMain.fileprefix = true ->
        HelperMain.Open h wfile = true ->
        HelperMain.Decode h = Some vars ->
        HelperMain.Close h = true ->
        HelperMain.Remove h wfile = true ->
        (forall k v, vars !! k = Some v -> HelperMain.Setenv h k v = true) ->
        (forall kv, kv ∈ HelperMain.range h vars -> vars !! kv.1 = Some kv.2) ->
        exists code,
          Helper.runTarget intSize (HelperMain.process h) (wpath :: target) = Ok code
          /\ HelperMain.main intSize h (tail argv)
             = Ok (code,
                   ([HelperMain.Opened wfile; HelperMain.Closed wfile;
                     HelperMain.Removed wfile]
                    ++ ((fun kv => HelperMain.EnvSet kv.1 kv.2) <$> HelperMain.range h vars)
                    ++ (if Helper.Start (HelperMain.process h) (Helper.command wpath target)
                        then [HelperMain.Started (Helper.command wpath target)]
                        else []))%list)).
Proof.
  intros H M.
  destruct (wenv_shape winpath wslpath retry sys args environ WENV T st st' _ _ H)
    as [[_ [E|E]]|(vars & target & s1 & C & S & N)]; [discriminate E..|].
  inversion S; subst.
  apply elem_of_app in M as [M|M].
  { apply elem_of_cons in M as [M|M]; [discriminate M|].
    apply elem_of_cons in M as [M|M]; [discriminate M|].
    apply list_elem_of_singleton in M. discriminate M. }
  apply elem_of_replicate in M as [M _]. inversion M. subst.
  exists vars, target, s1, wfile, wpath.
  split; [exact C|]. split; [reflexivity|].
  destruct target as [|t rest]; [now destruct N|].
  split; [simpl; lia|].
  intros P O D Cl Rm SE RG.
  destruct (runTarget_returns intSize (HelperMain.process h) wpath (t :: rest))
    as [code R].
  exists code. split; [exact R|].
  unfold HelperMain.main. cbn [tail length Nat.ltb Nat.leb].
  rewrite P, O, D, Cl, Rm. cbn [negb].
  rewrite setAll_all.
  2:{ intros k v X. apply SE. apply (RG (k, v) X). }
  cbn [negb]. rewrite R.
  destruct (Helper.Start (HelperMain.process h) (Helper.command wpath (t :: rest)));
    [reflexivity|]. now rewrite app_nil_r.
Qed.

Lemma launcher_to_helper_witness :
  exists code,
    HelperMain.main 64 (obligingHost (Some (<["X" := "1"]> ∅)) (exiting 0))
      ["C:\Temp\wenv042"; "C:\bin\cmd.exe"; "cmd.exe"; "/c"; "set"]
    = Ok (code,
          [HelperMain.Opened "C:\Temp\wenv042"; HelperMain.Closed "C:\Temp\wenv042";
           HelperMain.Removed "C:\Temp\wenv042"; HelperMain.EnvSet "X" "1";
           HelperMain.Started (Helper.command "C:\bin\cmd.exe" ["cmd.exe"; "/c"; "set"])]).
Proof.
  eassert (Launcher.wenv MntRootWinpath MntRootWslpath true
             (obligingSystem (fun _ => Replaced))
             ["X=1"; "cmd.exe"; "/c"; "set"] [] "" MntRootTable.varopts tt
           = Ok ((Launcher.Replaces, _), tt)) as H by (vm_compute; reflexivity).
  assert (collect MntRootWinpath ["X=1"; "cmd.exe"; "/c"; "set"] [] ""
            MntRootTable.varopts tt
          = Ok (Collected (<["X" := "1"]> ∅) ["cmd.exe"; "/c"; "set"], tt)) as C0
    by (vm_compute; reflexivity).
  destruct (launcher_to_helper MntRootWinpath MntRootWslpath true _ _ _ _ _ _ _ _
              "/mnt/c/bin/wenvhelper.exe"
              ["wenvhelper.exe"; "C:\Temp\wenv042"; "C:\bin\cmd.exe"; "cmd.exe"; "/c"; "set"]
              [] 64 (obligingHost (Some (<["X" := "1"]> ∅)) (exiting 0)) H)
    as (vars & target & st1 & wfile & wpath & C & A & _ & K).
  - do 3 right. now left.
  - rewrite C0 in C. assert (vars = <["X" := "1"]> ∅) as -> by congruence.
    inversion A. subst wfile wpath target.
    destruct K as (code & _ & R).
    + vm_compute. reflexivity.
    + reflexivity.
    + reflexivity.
    + reflexivity.
    + reflexivity.
    + reflexivity.
    + intros kv X. apply elem_of_map_to_list. destruct kv. exact X.
    + exists code. exact R.
Defined.

(** ** The root read lazily *)

(** X24: [/etc/wsl.conf] is read by the first conversion only.  When the
    first call of [winpath] returns and leaves a root that is not empty and
    stands for itself in a pattern, this root is the one that [getWSLRoot]
    computes from the file, the call has
    converted with it, and every later call of [winpath] or [wslpath]
    converts with the same root and leaves it in place, whatever the file
    holds by then. *)
Theorem root_read_once (conf conf' : option string) (p q : string)
    (res : string * option error) (r : string) :
  WslConf.winpath conf p "" = Ok (res, r) ->
  r <> "" -> plain r = true ->
  WslConf.getWSLRoot conf = Ok r
  /\ res = WslConf.winpathAt r p
  /\ WslConf.winpath conf' q r = Ok (WslConf.winpathAt r q, r)
  /\ WslConf.wslpath conf' q r = Ok (WslConf.wslpathAt r q, r).
Proof.
  unfold WslConf.winpath, WslConf.wslpath, WslConf.ensureRoot, bind.
  intros H R _. simpl in H.
  destruct (WslConf.getWSLRoot conf) as [r0|]; [|discriminate H].
  inversion H. subst r0 res.
  split; [reflexivity|]. split; [reflexivity|].
  destruct (String.eqb r "") eqn:E; [now apply String.eqb_eq in E|].
  split; reflexivity.
Qed.

Lemma root_read_once_witness :
  WslConf.winpath None "/mnt/c/Users" ""
    = Ok (("C:\Users", None), "/mnt/")
  /\ WslConf.wslpath (Some "[automount]
root = /win/
") "C:\Users" "/mnt/" = Ok ("/mnt/c/Users", "/mnt/").
Proof.
  assert (WslConf.winpath None "/mnt/c/Users" "" = Ok (("C:\Users", None), "/mnt/")) as H
    by (vm_compute; reflexivity).
  split; [exact H|].
  refine (eq_trans (proj2 (proj2 (proj2 (root_read_once None (Some "[automount]
root = /win/
") "/mnt/c/Users" "C:\Users" _ "/mnt/" H _ eq_refl)))) _).
  - discriminate.
  - vm_compute. reflexivity.
Defined.
(** ** The functions at work *)

Example winpath_bare_letter :
  MntRoot.winpath "/c/Users" = ("C:\Users", None)
  /\ WslConf.winpathAt "/mnt/" "/c/Users" = unconvertible.
Proof. split; reflexivity. Qed.

Example winpath_drive_only :
  MntRoot.winpath "/mnt/c" = ("C:", None)
  /\ WslConf.winpathAt "/mnt/" "/mnt/c" = ("C:", None)
  /\ WslConf.winpathAt "/mnt/" "/mnt/cd/x" = unconvertible.
Proof. repeat split. Qed.

Example winpath_first_use :
  WslConf.winpath None "/mnt/c/Users" "" = Ok (("C:\Users", None), "/mnt/")
  /\ WslConf.winpath (Some "root = /") "/c/Users" "" = Ok (("C:\Users", None), "/").
Proof. split; reflexivity. Qed.

Example wslpath_drive :
  WslConf.wslpathAt "/mnt/" "D:\foo\bar" = "/mnt/d/foo/bar"
  /\ MntRoot.wslpath "D:\foo\bar" = "/mnt/d/foo/bar"
  /\ MntRoot.wslpath "C:\Users\u\AppData\Local\Temp" = "/mnt/c/Users/u/AppData/Local/Temp".
Proof. repeat split. Qed.

Example getWSLRoot_automount :
  WslConf.getWSLRoot
    (Some ("[automount]" +:+ String "010" "root = /" +:+ String "010" "")) = Ok "/"
  /\ WslConf.getWSLRoot
       (Some (" root = " +:+ String dquote ("/win/" +:+ String dquote "  "))) = Ok "/win/".
Proof. split; reflexivity. Qed.

Example TrimSpace_unicode :
  TrimSpace (String "009" (" a b " +:+ String "194" (String "160" ""))) = "a b"
  /\ TrimSpace (String "226" (String "128" (String "168" "x"))) = "x"
  /\ TrimSpace (String "160" "x") = String "160" "x".
Proof. repeat split. Qed.

Example Split_fields :
  Split "a::b:" ":" = ["a"; ""; "b"; ""] /\ Split "" ":" = [""]
  /\ SplitN "A=b=c" "=" 2 = ["A"; "b=c"] /\ SplitN "A" "=" 2 = ["A"]
  /\ Join ["a"; ""; "b"] ";" = "a;;b".
Proof. repeat split. Qed.

Example getvaropts_empty_name :
  (getvaropts "!FOO, @" WslConfTable.varopts).2
  = Some (errors_New "empty var name in WENV").
Proof. vm_compute. reflexivity. Qed.

Example collect_explicit :
  collect (fun p => ret (MntRoot.winpath p)) ["FOO=/mnt/c/x"; "cmd.exe"]
    ["PATH=/mnt/c/a:/mnt/d/b"] "" MntRootTable.varopts tt
  = Ok (Collected {[ "FOO" := "/mnt/c/x" ]} ["cmd.exe"], tt).
Proof. vm_compute. reflexivity. Qed.

Example collect_environ :
  collect (WslConf.winpath None) ["cmd.exe"]
    ["PATH=/mnt/c/a:/usr/bin:/mnt/d/b"; "HOME=/home/u"; "GOBIN=/mnt/c/go/bin";
     "SHELL=/bin/sh"; "X=1"] "" WslConfTable.varopts ""
  = Ok (Collected (<[ "PATH" := "C:\a;D:\b" ]> (<[ "GOBIN" := "C:\go\bin" ]> {[ "X" := "1" ]}))
          ["cmd.exe"], "/mnt/").
Proof. vm_compute. reflexivity. Qed.

Example collect_configured_root :
  collect (WslConf.winpath (Some ("[automount]" +:+ String "010" "root = /win/")))
    ["cmd.exe"] ["PATH=/win/c/a:/mnt/d/b"; "X=1"] "" WslConfTable.varopts ""
  = Ok (Collected (<[ "PATH" := "C:\a" ]> {[ "X" := "1" ]}) ["cmd.exe"], "/win/")
  /\ collect (WslConf.winpath (Some "root=")) ["cmd.exe"] ["PATH=/mnt/c/a"] ""
       WslConfTable.varopts "" = Panic.
Proof. split; vm_compute; reflexivity. Qed.

Example roundtrip_drive_letter :
  MntRoot.winpath "c:relative" = ("c:relative", None)
  /\ MntRoot.wslpath "c:relative" = "/mnt/crelative"
  /\ normalise "c:relative" = "c:relative"
  /\ normalise "/mnt/crelative" = "/mnt/crelative"
  /\ normalise "/c/Users" = "/mnt/c/Users".
Proof. repeat split. Qed.

Example collect_usage :
  collect (fun p => ret (MntRoot.winpath p)) ["FOO=1"] [] "" MntRootTable.varopts tt
  = Ok (Exit 2, tt).
Proof. vm_compute. reflexivity. Qed.

Example collect_no_equals_panics :
  collect (fun p => ret (MntRoot.winpath p)) ["cmd.exe"] ["X"] "" MntRootTable.varopts tt
  = Panic.
Proof. vm_compute. reflexivity. Qed.
